(** * Drive inventory: enrichment pipeline and archive suggestions

    A shallow embedding of the two functions of [drive_inventory_app.py] that
    carry the logic of the dashboard:

    - [load_data]: cleans the uploaded table and adds the derived columns
      [Days Since Update], [Age Category], [Folder Level], [Parent Folder];
    - [ai_archive_suggestions]: the four archiving rules.

    Modelling conventions.

    - A data frame is the list of its rows, in index order.  A cell of a text
      column is [option string]: [Some s] is the text [s], and [None] is a
      cell that holds no text.  That is the missing value (NaN) which the CSV
      reader produces for an empty cell, and it is a number (or a truth
      value) where the reader found nothing else in the column.  As the
      reader builds it, a column has the text dtype (object) when it has no
      row or when one of its cells is a text; the [.str] methods exist on
      such a column only.  [Content Count] holds whole numbers, as in the CSV
      format the application documents.
    - A text is the [string] of its characters; a character outside ASCII is
      the sequence of the units of its UTF-8 encoding.  [str.lower] and the
      class [\d] follow the tables of the Unicode standard: they are the two
      members of the class [Unicode], which the model takes as a parameter.
    - The two regular expressions of rule 3 and the one of [Parent Folder] are
      kept as regular expressions and run by a backtracking matcher with the
      priorities of Python's [re] module (greedy repetition, leftmost
      alternative first, [$] also matching before a final line feed).
    - [pd.to_datetime(..., errors='coerce')] is a parameter acting on the whole
      column.  The dates are taken to be written without a time zone, as the
      clock reading is: instants are integers (nanoseconds).
      [datetime.now()] is the clock reading, an explicit argument.
    - A Python exception is the outcome [Raised]. *)

From Stdlib Require Import ZArith Ascii String List.
From stdpp Require Import base option list gmap strings sorting.

Local Open Scope string_scope.
Local Open Scope list_scope.

(** ** Outcomes: a returned value or a raised exception *)

Inductive exn : Type :=
  | AttributeError          (* raised by Python: [lower] on a float, [.str]
                               on a column without text *)
  | InputValidationError.   (* named by the specification; the program has
                               no statement that raises it *)

Inductive outcome (A : Type) : Type :=
  | Returned (a : A)
  | Raised (e : exn).
Arguments Returned {A} a.
Arguments Raised {A} e.

Definition obind {A B} (x : outcome A) (f : A -> outcome B) : outcome B :=
  match x with
  | Returned a => f a
  | Raised e => Raised e
  end.

(** ** Characters and text *)

Module Text.

Definition LF : ascii := ascii_of_N 10.

(** What Python takes from the Unicode tables. *)
Class Unicode : Type := {
  (** [str.lower] *)
  str_lower : string -> string;
  (** The class [\d]: the number of units of the decimal digit at the front
      of the text, 0 when the text does not start with a decimal digit. *)
  decimal_len : string -> nat
}.

(** The digits and capital letters of ASCII. *)
Definition is_digit (c : ascii) : bool :=
  let n := N_of_ascii c in ((48 <=? n) && (n <=? 57))%N.

Definition is_upper (c : ascii) : bool :=
  let n := N_of_ascii c in ((65 <=? n) && (n <=? 90))%N.

Definition lower_char (c : ascii) : ascii :=
  if is_upper c then ascii_of_N (N_of_ascii c + 32) else c.

(** [str.lower] on a text of ASCII characters: the letters A-Z change. *)
Fixpoint lower (s : string) : string :=
  match s with
  | EmptyString => EmptyString
  | String c s' => String (lower_char c) (lower s')
  end.

(** [\d] on a text of ASCII characters: one of 0-9, a single unit. *)
Definition ascii_decimal_len (s : string) : nat :=
  match s with
  | String c _ => if is_digit c then 1 else 0
  | EmptyString => 0
  end.

(** [s.startswith(p)], returning what follows the prefix. *)
Fixpoint strip_prefix (p s : string) : option string :=
  match p with
  | EmptyString => Some s
  | String a p' =>
      match s with
      | EmptyString => None
      | String b s' => if Ascii.eqb a b then strip_prefix p' s' else None
      end
  end.

(** [s[:n]] *)
Fixpoint prefix_of (n : nat) (s : string) : string :=
  match n, s with
  | S n', String c s' => String c (prefix_of n' s')
  | _, _ => EmptyString
  end.

(** [s[n:]] *)
Fixpoint drop_chars (n : nat) (s : string) : string :=
  match n, s with
  | S n', String _ s' => drop_chars n' s'
  | _, _ => s
  end.

End Text.

(** ** Regular expressions, as Python's [re] runs them *)

Module Re.
Import Text.

(** Sets of characters that the patterns of the program repeat and that
    one unit decides. *)
Inductive charset : Type :=
  | CsDot                (* [.]    anything but a line feed *)
  | CsNot (c : ascii).   (* [[^c]] *)

Definition cs_mem (cs : charset) (c : ascii) : bool :=
  match cs with
  | CsDot => negb (Ascii.eqb c LF)
  | CsNot x => negb (Ascii.eqb c x)
  end.

Inductive regex : Type :=
  | Lit (p : string)          (* literal text *)
  | Plus (cs : charset)       (* [cs+], greedy *)
  | Digits (front : string -> nat)
                              (* [\d+], greedy; [front] is the class [\d] *)
  | Opt (r : regex)           (* [r?], greedy *)
  | Cat (r1 r2 : regex)       (* [r1 r2] *)
  | Alt (r1 r2 : regex)       (* [r1|r2] *)
  | Grp (r : regex)           (* [(r)], capturing *)
  | Eol.                      (* [$] *)

(** [$] without MULTILINE: at the end of the text, or just before a line feed
    that is the last character. *)
Definition at_eol (s : string) : bool :=
  match s with
  | EmptyString => true
  | String c EmptyString => Ascii.eqb c LF
  | _ => false
  end.

Section Matcher.
Context {R : Type}.

(** Greedy repetition: take the longest run first and give characters back
    one at a time while the continuation fails. *)
Fixpoint greedy (cs : charset) (n : nat) (s : string)
    (k : nat -> string -> option R) : option R :=
  match s with
  | String c s' =>
      if cs_mem cs c then
        match greedy cs (S n) s' k with
        | Some x => Some x
        | None => k n s
        end
      else k n s
  | EmptyString => k n s
  end.

(** The same for a class whose characters may take several units: [front s]
    is the number of units of the character of the class at the front of
    [s], 0 when there is none.  [fuel] bounds the number of characters taken;
    the length of the text is enough. *)
Fixpoint greedy_by (front : string -> nat) (fuel : nat) (n : nat) (s : string)
    (k : nat -> string -> option R) : option R :=
  match fuel with
  | O => k n s
  | S fuel' =>
      match front s with
      | O => k n s
      | S j =>
          match greedy_by front fuel' (n + S j) (drop_chars (S j) s) k with
          | Some x => Some x
          | None => k n s
          end
      end
  end.

(** [exec r n s g k]: match [r] at the front of [s], where [n] characters
    have been consumed since the start of the attempt and [g] holds the
    groups closed so far; [k] is the rest of the pattern. *)
Fixpoint exec (r : regex) (n : nat) (s : string) (g : list string)
    (k : nat -> string -> list string -> option R) : option R :=
  match r with
  | Lit p =>
      match strip_prefix p s with
      | Some s' => k (n + String.length p) s' g
      | None => None
      end
  | Plus cs =>
      match s with
      | String c s' =>
          if cs_mem cs c then greedy cs (S n) s' (fun n' s'' => k n' s'' g)
          else None
      | EmptyString => None
      end
  | Digits front =>
      match front s with
      | O => None
      | S j =>
          greedy_by front (String.length s) (n + S j) (drop_chars (S j) s)
                    (fun n' s'' => k n' s'' g)
      end
  | Opt r1 =>
      match exec r1 n s g k with
      | Some x => Some x
      | None => k n s g
      end
  | Cat r1 r2 => exec r1 n s g (fun n1 s1 g1 => exec r2 n1 s1 g1 k)
  | Alt r1 r2 =>
      match exec r1 n s g k with
      | Some x => Some x
      | None => exec r2 n s g k
      end
  | Grp r1 =>
      exec r1 n s g (fun n1 s1 g1 => k n1 s1 (g1 ++ [prefix_of (n1 - n) s]))
  | Eol => if at_eol s then k n s g else None
  end.
End Matcher.

(** [re.match]: the length of the match at the front of [s]. *)
Definition match_len (r : regex) (s : string) : option nat :=
  exec r 0 s [] (fun n _ _ => Some n).

(** [re.search]: the groups of the leftmost match. *)
Fixpoint search (r : regex) (s : string) : option (list string) :=
  match exec r 0 s [] (fun _ _ g => Some g) with
  | Some g => Some g
  | None =>
      match s with
      | EmptyString => None
      | String _ s' => search r s'
      end
  end.

(** [re.sub(r, '', s)]: scan from the left; a match of [j+1] characters is
    dropped and the scan resumes after it. [skip] counts the characters of
    the current match still to drop. *)
Fixpoint sub_from (r : regex) (skip : nat) (s : string) : string :=
  match s with
  | EmptyString => EmptyString
  | String c s' =>
      match skip with
      | S j => sub_from r j s'
      | O =>
          match match_len r s with
          | Some (S j) => sub_from r j s'
          | _ => String c (sub_from r 0 s')
          end
      end
  end.

Definition sub (r : regex) (s : string) : string := sub_from r 0 s.

(** [len(re.findall(r, s))]: the number of non-overlapping matches. *)
Fixpoint findall_from (r : regex) (skip : nat) (s : string) : nat :=
  match s with
  | EmptyString => 0
  | String c s' =>
      match skip with
      | S j => findall_from r j s'
      | O =>
          match match_len r s with
          | Some (S j) => S (findall_from r j s')
          | _ => findall_from r 0 s'
          end
      end
  end.

Definition findall_len (r : regex) (s : string) : nat := findall_from r 0 s.

End Re.

(** ** The patterns of the program *)

Import Text Re.

(** [r'(_copy|_v\d+|\(\d+\)|_final|_draft)'] *)
Definition suffix_re {U : Unicode} : regex :=
  Grp (Alt (Lit "_copy")
      (Alt (Cat (Lit "_v") (Digits decimal_len))
      (Alt (Cat (Lit "(") (Cat (Digits decimal_len) (Lit ")")))
      (Alt (Lit "_final")
           (Lit "_draft"))))).

(** [r'\.(pdf|docx?|xlsx?|pptx?)$'] *)
Definition extension_re : regex :=
  Cat (Lit ".")
 (Cat (Grp (Alt (Lit "pdf")
           (Alt (Cat (Lit "doc") (Opt (Lit "x")))
           (Alt (Cat (Lit "xls") (Opt (Lit "x")))
                (Cat (Lit "ppt") (Opt (Lit "x")))))))
      Eol).

(** [r'(.+)/[^/]+$'] *)
Definition parent_re : regex :=
  Cat (Grp (Plus CsDot))
 (Cat (Lit "/")
 (Cat (Plus (CsNot "/"))
      Eol)).

(** ['/'], the pattern given to [str.count] *)
Definition slash_re : regex := Lit "/".

(** ** The data frame *)

(** A row of the uploaded CSV, as [pd.read_csv] delivers it.  In the text
    columns [None] is a cell without text: an empty cell, or a number. *)
Record raw_row : Type := RawRow {
  raw_Name : option string;
  raw_Type : option string;
  raw_URL : option string;
  raw_Last_Updated : option string;
  raw_Last_Edited_By : option string;
  raw_Last_Editor_Email : option string;
  raw_Folder_Path : option string;
  raw_Content_Count : option Z
}.

(** A row of the frame that [load_data] returns: [Last Updated] now holds
    an instant (or NaT), and the four derived columns are present. *)
Record row : Type := Row {
  Name : option string;
  Type_ : option string;
  URL : option string;
  Last_Updated : option Z;
  Last_Edited_By : option string;
  Last_Editor_Email : option string;
  Folder_Path : option string;
  Content_Count : option Z;
  Days_Since_Update : option Z;
  Age_Category : string;
  Folder_Level : option nat;
  Parent_Folder : string
}.

(** ** [load_data] *)

Definition ns_per_day : Z := 86400000000000.

(** [Timedelta.days]: whole days, rounded towards minus infinity. *)
Definition dt_days (delta : Z) : Z := (delta / ns_per_day)%Z.

Definition categorize_age (days : option Z) : string :=
  match days with
  | None => "Unknown"
  | Some d =>
      if (d <=? 30)%Z then "Recent (0-30 days)"
      else if (d <=? 90)%Z then "Moderately Old (1-3 months)"
      else if (d <=? 365)%Z then "Old (3-12 months)"
      else "Very Old (1+ years)"
  end.

(** The dtype of a column as [read_csv] sets it: text (object) when the
    column has no row or one of its cells is a text, numeric otherwise.  The
    accessor [Series.str] raises on a column that is not of text dtype. *)
Definition text_column (col : list (option string)) : Prop :=
  col = [] ∨ Exists is_Some col.

#[global] Instance text_column_dec col : Decision (text_column col).
Proof. unfold text_column. apply _. Defined.

(** [Series.str.count(pat)]: NaN stays NaN. *)
Definition str_count (r : regex) (cell : option string) : option nat :=
  Re.findall_len r <$> cell.

(** [Series.str.extract(pat)] for a pattern with one group: the group of the
    first match, NaN when the cell is NaN or nothing matches. *)
Definition str_extract (r : regex) (cell : option string) : option string :=
  s ← cell; g ← Re.search r s; g !! 0%nat.

(** [Series.fillna(v)] *)
Definition fillna (v : string) (cell : option string) : string :=
  default v cell.

(** The derived columns of one row, given the clock reading and the parsed
    [Last Updated] cell. *)
Definition enrich (now : Z) (r : raw_row) (t : option Z) : row :=
  let days := (fun t0 => dt_days (now - t0)) <$> t in
  {| Name := raw_Name r;
     Type_ := raw_Type r;
     URL := raw_URL r;
     Last_Updated := t;
     Last_Edited_By := raw_Last_Edited_By r;
     Last_Editor_Email := raw_Last_Editor_Email r;
     Folder_Path := raw_Folder_Path r;
     Content_Count := raw_Content_Count r;
     Days_Since_Update := days;
     Age_Category := categorize_age days;
     Folder_Level := str_count slash_re (raw_Folder_Path r);
     Parent_Folder := fillna "Root" (str_extract parent_re (raw_Folder_Path r)) |}.

Section LoadData.
(** [pd.to_datetime(column, errors='coerce')]: one result per cell, NaT
    ([None]) where the cell does not parse. *)
Variable to_datetime : list (option string) -> list (option Z).

(** Assigning a series to a column aligns it on the row index; an index
    without a value receives NaT.  [df['Folder Path'].str] needs a column of
    text: on a table with rows and no text in [Folder Path] it raises, after
    the age columns have been computed and before anything is returned. *)
Definition load_data (now : Z) (uploaded_file : option (list raw_row))
    : outcome (option (list row)) :=
  match uploaded_file with
  | Some df =>
      let parsed := to_datetime (raw_Last_Updated <$> df) in
      if decide (text_column (raw_Folder_Path <$> df)) then
        Returned (Some (imap (fun i r => enrich now r (mjoin (parsed !! i))) df))
      else Raised AttributeError
  | None => Returned None
  end.
End LoadData.

(** ** [ai_archive_suggestions] *)

(** The three levels the page knows how to colour. *)
Inductive confidence_level : Type := High | Medium | Low.

(** [items] holds cells of the column [Name]. *)
Record suggestion : Type := Suggestion {
  category : string;
  count : nat;
  reason : string;
  confidence : confidence_level;
  items : list (option string)
}.

Section Rule3.
Context {U : Unicode}.

(** Rule 3, the cleaned name and the pattern of a file name. *)
Definition name_clean (name : string) : string :=
  Re.sub suffix_re (str_lower name).

Definition name_pattern (name : string) : string :=
  Re.sub extension_re (name_clean name).

(** The two variables the loop of rule 3 updates. *)
Record scan : Type := Scan {
  seen_patterns : gmap string string;
  duplicate_candidates : list string
}.

(** One iteration of [for idx, row in file_df.iterrows()].  A name that is
    not a text is a float (the missing value) or another number, and has no
    [lower]. *)
Definition scan_row (st : scan) (r : row) : outcome scan :=
  match Name r with
  | None => Raised AttributeError
  | Some name =>
      let p := name_pattern name in
      match seen_patterns st !! p with
      | Some first =>
          Returned (Scan (seen_patterns st)
                         (duplicate_candidates st ++ [first; name]))
      | None =>
          Returned (Scan (<[p := name]> (seen_patterns st))
                         (duplicate_candidates st))
      end
  end.

Fixpoint scan_rows (st : scan) (file_df : list row) : outcome scan :=
  match file_df with
  | [] => Returned st
  | r :: rest => obind (scan_row st r) (fun st' => scan_rows st' rest)
  end.
End Rule3.

(** [cell > n] on a numeric column: false on NaN. *)
Definition cell_gt (cell : option Z) (n : Z) : Prop :=
  match cell with
  | Some v => (n < v)%Z
  | None => False
  end.

#[global] Instance cell_gt_dec cell n : Decision (cell_gt cell n).
Proof. destruct cell; simpl; apply _. Defined.

Definition is_file (r : row) : Prop := Type_ r = Some "File".
Definition is_folder (r : row) : Prop := Type_ r = Some "Folder".

Definition very_old_file (r : row) : Prop :=
  Age_Category r = "Very Old (1+ years)" ∧ is_file r.

Definition empty_folder (r : row) : Prop :=
  is_folder r ∧ Content_Count r = Some 0%Z.

Definition old_folder (r : row) : Prop :=
  is_folder r
  ∧ Age_Category r ∈ ["Old (3-12 months)"; "Very Old (1+ years)"]
  ∧ cell_gt (Content_Count r) 10.

#[global] Instance is_file_dec r : Decision (is_file r).
Proof. unfold is_file. apply _. Defined.
#[global] Instance is_folder_dec r : Decision (is_folder r).
Proof. unfold is_folder. apply _. Defined.
#[global] Instance very_old_file_dec r : Decision (very_old_file r).
Proof. unfold very_old_file. apply _. Defined.
#[global] Instance empty_folder_dec r : Decision (empty_folder r).
Proof. unfold empty_folder. apply _. Defined.
#[global] Instance old_folder_dec r : Decision (old_folder r).
Proof. unfold old_folder. apply _. Defined.

Section Suggestions.
Context {U : Unicode}.
(** [list(a_set)]: the elements in the order the set iterates them. Python
    does not fix that order; a proof that needs more than the name assumes
    that the list is a permutation of the elements of the set. *)
Variable set_to_list : gset string -> list string.

Definition rule1 (df : list row) (suggestions : list suggestion)
    : list suggestion :=
  let very_old_files := filter very_old_file df in
  if decide (0 < length very_old_files) then
    suggestions ++
    [ {| category := "Very Old Files";
         count := length very_old_files;
         reason := "Files not accessed in over 1 year";
         confidence := High;
         items := take 10 (Name <$> very_old_files) |} ]
  else suggestions.

Definition rule2 (df : list row) (suggestions : list suggestion)
    : list suggestion :=
  let empty_folders := filter empty_folder df in
  if decide (0 < length empty_folders) then
    suggestions ++
    [ {| category := "Empty Folders";
         count := length empty_folders;
         reason := "Folders containing no files";
         confidence := High;
         items := Name <$> empty_folders |} ]
  else suggestions.

Definition rule3 (df : list row) (suggestions : list suggestion)
    : outcome (list suggestion) :=
  let file_df := filter is_file df in
  if decide (0 < length file_df) then
    obind (scan_rows (Scan ∅ []) file_df) (fun st =>
      let duplicate_candidates := duplicate_candidates st in
      match duplicate_candidates with
      | [] => Returned suggestions
      | _ :: _ =>
          let names : gset string := list_to_set duplicate_candidates in
          Returned (suggestions ++
            [ {| category := "Potential Duplicates";
                 count := size names;
                 reason := "Files with similar names that might be duplicates";
                 confidence := Medium;
                 items := Some <$> take 10 (set_to_list names) |} ])
      end)
  else Returned suggestions.

Definition rule4 (df : list row) (suggestions : list suggestion)
    : list suggestion :=
  let old_folders := filter old_folder df in
  if decide (0 < length old_folders) then
    suggestions ++
    [ {| category := "Large Old Folders";
         count := length old_folders;
         reason := "Folders with many files that haven't been updated recently";
         confidence := Medium;
         items := take 5 (Name <$> old_folders) |} ]
  else suggestions.

Definition ai_archive_suggestions (df : list row)
    : outcome (list suggestion) :=
  let suggestions := [] in
  let suggestions := rule1 df suggestions in
  let suggestions := rule2 df suggestions in
  obind (rule3 df suggestions) (fun suggestions =>
  Returned (rule4 df suggestions)).
End Suggestions.

(** ** Values for the worked examples

    [to_datetime] is a parameter of [load_data]; the examples instantiate it
    with a parser that knows a few ISO dates and turns anything else into
    NaT.  Their texts are made of ASCII characters, on which [str.lower]
    changes the letters A-Z and [\d] is one of 0-9. *)

Definition ascii_text : Unicode :=
  {| str_lower := lower; decimal_len := ascii_decimal_len |}.

Definition known_dates : list (string * Z) :=
  [ ("1970-01-01", 0%Z);
    ("1970-01-02", (1 * ns_per_day)%Z);
    ("1970-02-01", (31 * ns_per_day)%Z);
    ("1971-01-01", (365 * ns_per_day)%Z) ].

Definition parse_known (s : string) : option Z :=
  snd <$> find (fun d => bool_decide (fst d = s)) known_dates.

Definition to_datetime_known (col : list (option string)) : list (option Z) :=
  (fun cell => cell ≫= parse_known) <$> col.

(** A record for the worked examples. *)
Definition sample_raw : raw_row :=
  RawRow (Some "a.pdf") (Some "File") None (Some "1970-01-01")
         None None (Some "Projects/a.pdf") None.


(** A file at the root of the drive: the export leaves its folder path
    empty. *)
Definition root_file : raw_row :=
  RawRow (Some "notes.txt") (Some "File") None (Some "1970-01-01")
         None None None None.


Definition nameless_raw : raw_row :=
  RawRow None (Some "File") None (Some "1970-01-01")
         None None (Some "Docs") None.

(** Scenario C of the specification: two files that share the pattern
    [plan], and the group they give with the set order [elements]. *)
Definition file_named (name : string) : row :=
  Row (Some name) (Some "File") None None None None None None
      None "Unknown" None "Root".

Definition plan_files : list row :=
  [file_named "plan_final.docx"; file_named "plan_v2.docx"].

Definition plan_group : suggestion :=
  Suggestion "Potential Duplicates" 2
    "Files with similar names that might be duplicates" Medium
    [Some "plan_v2.docx"; Some "plan_final.docx"].

(** Two names that differ in case, in a token and in the case of the
    extension. *)
Definition report_names : list string := ["Report_FINAL.pdf"; "report(2).PDF"].

Definition report_files : list row := file_named <$> report_names.

(** Two files whose names end with a line feed. *)
Definition line_feed_names : list string :=
  ["a.pdf" +:+ String Text.LF ""; "a" +:+ String Text.LF ""].

Definition line_feed_files : list row := file_named <$> line_feed_names.

(** * The statements of the specification *)

Module Spec.

(** ** Age buckets *)

Inductive age_bucket : Type := Recent | ModeratelyOld | Old | VeryOld | Unknown.

(** The text the program stores for each bucket. *)
Definition label (b : age_bucket) : string :=
  match b with
  | Recent => "Recent (0-30 days)"
  | ModeratelyOld => "Moderately Old (1-3 months)"
  | Old => "Old (3-12 months)"
  | VeryOld => "Very Old (1+ years)"
  | Unknown => "Unknown"
  end.

(** The thresholds, as the specification lists them. *)
Definition in_bucket (days : option Z) (b : age_bucket) : Prop :=
  match days with
  | None => b = Unknown
  | Some d =>
      ((d ≤ 30)%Z ∧ b = Recent)
      ∨ ((30 < d ≤ 90)%Z ∧ b = ModeratelyOld)
      ∨ ((90 < d ≤ 365)%Z ∧ b = Old)
      ∨ ((365 < d)%Z ∧ b = VeryOld)
  end.

(** ** Paths *)

Fixpoint count_char (c : ascii) (s : string) : nat :=
  match s with
  | EmptyString => 0
  | String a s' => (if Ascii.eqb a c then 1 else 0) + count_char c s'
  end.

(** The text after the last line feed of [s] ([s] itself without one). *)
Fixpoint last_line (s : string) : string :=
  match s with
  | EmptyString => EmptyString
  | String a s' =>
      if decide (count_char LF s' = 0)
      then (if Ascii.eqb a LF then s' else s)
      else last_line s'
  end.

(** The parent path as the specification words it: [Root] exactly when the
    path is empty or without separator. *)
Definition root_iff_no_separator (parent : option string -> string) : Prop :=
  ∀ path : string,
    parent (Some path) = "Root" ↔ (path = "" ∨ count_char "/" path = 0).

(** ** Name patterns *)

Section Patterns.
Context {U : Unicode}.

(** The number of units of the decimal digits at the front of [s], for at
    most [fuel] digits. *)
Fixpoint digit_run (fuel : nat) (s : string) : nat :=
  match fuel with
  | O => 0
  | S fuel' =>
      match decimal_len s with
      | O => 0
      | S j => S j + digit_run fuel' (drop_chars (S j) s)
      end
  end.

(** The run of decimal digits at the front of [s]: a text has no more
    digits than units. *)
Definition digits_at (s : string) : nat := digit_run (S (String.length s)) s.

(** The length of the token at the front of [s], for each kind of token. *)
Definition literal_token (p s : string) : option nat :=
  match strip_prefix p s with
  | Some _ => Some (String.length p)
  | None => None
  end.

(** [_v<digits>] *)
Definition version_token (s : string) : option nat :=
  match strip_prefix "_v" s with
  | Some t => if decide (digits_at t = 0) then None else Some (2 + digits_at t)
  | None => None
  end.

(** [(<digits>)] *)
Definition number_token (s : string) : option nat :=
  match strip_prefix "(" s with
  | Some t =>
      if decide (digits_at t = 0) then None
      else match strip_prefix ")" (drop_chars (digits_at t) t) with
           | Some _ => Some (1 + digits_at t + 1)
           | None => None
           end
  | None => None
  end.

Definition token_at (s : string) : option nat :=
  literal_token "_copy" s ∪ version_token s ∪ number_token s
  ∪ literal_token "_final" s ∪ literal_token "_draft" s.

(** Removing every token, scanning from the left; [skip] counts the
    characters of the current token still to drop. *)
Fixpoint remove_tokens_from (skip : nat) (s : string) : string :=
  match s with
  | EmptyString => EmptyString
  | String c s' =>
      match skip with
      | S j => remove_tokens_from j s'
      | O =>
          match token_at s with
          | Some (S j) => remove_tokens_from j s'
          | _ => String c (remove_tokens_from 0 s')
          end
      end
  end.

Definition remove_tokens (s : string) : string := remove_tokens_from 0 s.
End Patterns.

Definition extensions : list string :=
  ["pdf"; "doc"; "docx"; "xls"; "xlsx"; "ppt"; "pptx"].

Definition dotted (ext : string) : string := String "." ext.

(** A trailing extension in the strict sense: the text ends with it. *)
Fixpoint strip_trailing_extension (s : string) : string :=
  match s with
  | EmptyString => EmptyString
  | String c s' =>
      if decide (s ∈ dotted <$> extensions) then EmptyString
      else String c (strip_trailing_extension s')
  end.

(** The extension may also be followed by one final line feed, which stays. *)
Fixpoint strip_extension (s : string) : string :=
  match s with
  | EmptyString => EmptyString
  | String c s' =>
      if decide (s ∈ dotted <$> extensions) then EmptyString
      else if decide (s ∈ (fun e => dotted e +:+ String LF "") <$> extensions)
      then String LF ""
      else String c (strip_extension s')
  end.

(** The pattern as the specification words it, and with the line feed case. *)
Definition claimed_pattern {U : Unicode} (name : string) : string :=
  strip_trailing_extension (remove_tokens (str_lower name)).

Definition pattern {U : Unicode} (name : string) : string :=
  strip_extension (remove_tokens (str_lower name)).

(** ** Duplicate candidates *)

(** The first name seen so far that has the pattern of [name]. *)
Definition first_seen (pat : string -> string) (earlier : list string)
    (name : string) : option string :=
  find (fun m => bool_decide (pat m = pat name)) earlier.

(** Scanning the names in order: a name whose pattern was seen before adds
    the first name with that pattern, and itself. *)
Fixpoint candidates (pat : string -> string) (earlier names : list string)
    : list string :=
  match names with
  | [] => []
  | name :: rest =>
      match first_seen pat earlier name with
      | Some first => first :: name :: candidates pat (earlier ++ [name]) rest
      | None => candidates pat (earlier ++ [name]) rest
      end
  end.

(** The group that a list of candidate names gives rise to: none for an
    empty list, else the set of names with its size, at most ten shown. *)
Definition duplicates_group (set_to_list : gset string -> list string)
    (c : list string) : list suggestion :=
  match c with
  | [] => []
  | _ :: _ =>
      [ {| category := "Potential Duplicates";
           count := size (list_to_set c : gset string);
           reason := "Files with similar names that might be duplicates";
           confidence := Medium;
           items := Some <$> take 10 (set_to_list (list_to_set c)) |} ]
  end.

(** The group of rule 3 for the names of the files, in input order. *)
Definition potential_duplicates (pat : string -> string)
    (set_to_list : gset string -> list string) (names : list string)
    : list suggestion :=
  duplicates_group set_to_list (candidates pat [] names).

(** Rule 3 as the specification words it, with the strict trailing
    extension. *)
Definition rule3_as_worded {U : Unicode}
    (set_to_list : gset string -> list string) : Prop :=
  ∀ df names suggestions,
    Name <$> filter is_file df = Some <$> names →
    rule3 set_to_list df suggestions =
    Returned (suggestions ++ potential_duplicates claimed_pattern set_to_list names).

(** Two files, the second later than the first, with the same pattern. *)
Definition collision {U : Unicode} (df : list row) : Prop :=
  ∃ (i j : nat) (a b : string),
    i < j
    ∧ (Name <$> filter is_file df) !! i = Some (Some a)
    ∧ (Name <$> filter is_file df) !! j = Some (Some b)
    ∧ name_pattern a = name_pattern b.

(** The four rules, in the order the engine evaluates them. *)
Definition rule_order : list string :=
  ["Very Old Files"; "Empty Folders"; "Potential Duplicates"; "Large Old Folders"].

(** The engine returns on every table that the pipeline returns, as the
    specification states it. *)
Definition never_fails_on_enriched {U : Unicode}
    (to_datetime : list (option string) -> list (option Z))
    (set_to_list : gset string -> list string) : Prop :=
  ∀ now df out,
    load_data to_datetime now (Some df) = Returned (Some out) →
    ∃ gs, ai_archive_suggestions set_to_list out = Returned gs.

(** ** Validation and determinism, as the specification states them *)



(** Both clock readings are the same number of whole days after the instant
    of a cell. *)
Definition same_day (now1 now2 : Z) (cell : option Z) : Prop :=
  match cell with
  | Some t => dt_days (now1 - t) = dt_days (now2 - t)
  | None => True
  end.

Definition same_on_every_run
    (to_datetime : list (option string) -> list (option Z)) : Prop :=
  ∀ now1 now2 df,
    load_data to_datetime now1 (Some df) = load_data to_datetime now2 (Some df).

End Spec.

(** * Invariants *)

(** The dictionary [seen_patterns] holds, for every pattern, the first of
    the names seen so far that has it. *)
Definition tracks {U : Unicode} (m : gmap string string)
    (earlier : list string) : Prop :=
  ∀ p, m !! p = find (fun n => bool_decide (name_pattern n = p)) earlier.

(** What the rest of [parent_re] after its group accepts: a [/] followed by
    at least one character and no further [/]. *)
Definition last_segment (s : string) : bool :=
  match s with
  | String c t =>
      Ascii.eqb c "/" && negb (bool_decide (t = "")) && bool_decide (Spec.count_char "/" t = 0)
  | EmptyString => false
  end.

(** The derived parent path of a [Folder Path] cell. *)
Definition parent_folder (cell : option string) : string :=
  fillna "Root" (str_extract parent_re cell).


(** * The rest of the page

    [get_color_for_age], the filters, metrics and suggestion lines of [main],
    and [create_folder_tree_view]. What a Streamlit widget returns (the
    sidebar choices, the state of a checkbox) is an argument; what is written
    on the page is a list of lines. [str.contains] with the user's pattern is
    a parameter. The calls into the chart library and the CSV download link
    are not modelled. *)

(** ** [get_color_for_age] *)

Definition colors : gmap string string :=
  list_to_map
    [ ("Recent (0-30 days)", "#2ECC71");
      ("Moderately Old (1-3 months)", "#F39C12");
      ("Old (3-12 months)", "#E74C3C");
      ("Very Old (1+ years)", "#8B0000");
      ("Unknown", "#95A5A6") ].

(** [colors.get(age_category, "#95A5A6")] *)
Definition get_color_for_age (age_category : string) : string :=
  default "#95A5A6" (colors !! age_category).

(** ** The sidebar filters of [main] *)

(** [Timestamp.date()], as the number of the day. *)
Definition date_of (t : Z) : Z := (t / ns_per_day)%Z.

(** [Series.min()] and [Series.max()] of the dates, NaT skipped. *)
Definition column_dates (df : list row) : list Z :=
  omap (fun r => date_of <$> Last_Updated r) df.

Definition min_date (df : list row) : option Z :=
  match column_dates df with
  | [] => None
  | d :: ds => Some (foldr Z.min d ds)
  end.

Definition max_date (df : list row) : option Z :=
  match column_dates df with
  | [] => None
  | d :: ds => Some (foldr Z.max d ds)
  end.

(** [Series.unique()]: the values in the order of their first appearance. *)
Fixpoint unique_from (seen : list string) (col : list string) : list string :=
  match col with
  | [] => []
  | x :: rest =>
      if decide (x ∈ seen) then unique_from seen rest
      else x :: unique_from (x :: seen) rest
  end.

Definition unique (col : list string) : list string := unique_from [] col.

(** What the user has set in the sidebar. [picked] is what the date input
    returns: no, one or two dates. *)
Record sidebar : Type := Sidebar {
  type_filter : string;
  search_term : string;
  picked : list Z;
  age_categories : list string
}.

(** The date range: the date input is only shown when some [Last Updated]
    is present. *)
Definition date_range (df : list row) (sb : sidebar) : option (list Z) :=
  if decide (Forall (fun r => Last_Updated r = None) df) then None
  else Some (picked sb).

(** The sidebar as it is before the user touches it. *)
Definition default_sidebar (df : list row) : sidebar :=
  {| type_filter := "All Items";
     search_term := "";
     picked := match min_date df, max_date df with
               | Some lo, Some hi => [lo; hi]
               | _, _ => []
               end;
     age_categories := unique (Age_Category <$> df) |}.

(** [low <= cell.date() <= high] on the column: false on NaT. *)
Definition date_between (lo hi : Z) (r : row) : Prop :=
  match Last_Updated r with
  | Some t => (lo ≤ date_of t)%Z ∧ (date_of t ≤ hi)%Z
  | None => False
  end.

#[global] Instance date_between_dec lo hi r : Decision (date_between lo hi r).
Proof. unfold date_between. destruct (Last_Updated r); apply _. Defined.

Section Filters.
(** [Series.str.contains(pattern, case=False, na=False)] on one text: the
    pattern is a regular expression typed by the user. *)
Variable str_contains : string -> string -> bool.

(** [na=False]: a missing name does not match. *)
Definition name_contains (pattern : string) (r : row) : Prop :=
  match Name r with
  | Some name => str_contains pattern name = true
  | None => False
  end.

#[global] Instance name_contains_dec pattern r : Decision (name_contains pattern r).
Proof. unfold name_contains. destruct (Name r); apply _. Defined.

(** The block [# Apply filters] of [main]. *)
Definition apply_filters (df : list row) (sb : sidebar) : list row :=
  let filtered_df := df in
  let filtered_df :=
    if decide (type_filter sb = "Files Only") then filter is_file filtered_df
    else if decide (type_filter sb = "Folders Only") then filter is_folder filtered_df
    else filtered_df in
  let filtered_df :=
    if decide (search_term sb = "") then filtered_df
    else filter (name_contains (search_term sb)) filtered_df in
  let filtered_df :=
    match date_range df sb with
    | Some [lo; hi] => filter (date_between lo hi) filtered_df
    | _ => filtered_df
    end in
  filter (fun r => Age_Category r ∈ age_categories sb) filtered_df.
End Filters.

(** ** The summary metrics of the overview tab *)

Record metrics : Type := Metrics {
  total_items : nat;
  files_metric : nat;
  folders_metric : nat
}.

Definition summary_metrics (filtered_df : list row) : metrics :=
  {| total_items := length filtered_df;
     files_metric := length (filter is_file filtered_df);
     folders_metric := length (filter is_folder filtered_df) |}.

(** ** The suggestions tab *)

(** The bullet lines of one group: [suggestion['items'][:5]]. *)
Definition sample_items (g : suggestion) : list (option string) :=
  take 5 (items g).

(** The line [... and N more items], shown when there are more than five. *)
Definition more_items (g : suggestion) : option nat :=
  if decide (5 < length (items g)) then Some (length (items g) - 5) else None.

(** ** Values for the worked examples of the page *)

(** A stand-in for [str.contains]: the pattern, taken literally and without
    regard to case, occurs in the text. *)
Fixpoint occurs_in (p s : string) : bool :=
  match strip_prefix p s with
  | Some _ => true
  | None =>
      match s with
      | EmptyString => false
      | String _ s' => occurs_in p s'
      end
  end.

Definition contains_plain (pattern text : string) : bool :=
  occurs_in (lower pattern) (lower text).

Definition folder_named (name : string) (content_count : Z) : row :=
  Row (Some name) (Some "Folder") None None None None (Some name)
      (Some content_count) None "Unknown" None "Root".



Definition files_only : sidebar := Sidebar "Files Only" "" [] ["Unknown"].

(** ** [create_folder_tree_view] *)

Module Tree.

(** [str.split('/')]: the segments between the separators, never an empty
    list. *)
Fixpoint split_on (c : ascii) (s : string) : list string :=
  match s with
  | EmptyString => [EmptyString]
  | String a s' =>
      if Ascii.eqb a c then EmptyString :: split_on c s'
      else match split_on c s' with
           | h :: t => String a h :: t
           | [] => [String a EmptyString]
           end
  end.

(** [path_parts[:-1]] and [path_parts[-1]]; nothing for an empty list. *)
Fixpoint init_last (l : list string) : option (list string * string) :=
  match l with
  | [] => None
  | x :: rest =>
      match init_last rest with
      | None => Some ([], x)
      | Some (i, la) => Some (x :: i, la)
      end
  end.

(** [{'folders': {...}, 'files': [...], 'info': ...}]. A dictionary is the
    list of its entries in insertion order. *)
#[local] Unset Elimination Schemes.
Inductive node : Type :=
  Node (folders : list (string * node)) (files : list row) (info : option row).
#[local] Set Elimination Schemes.

Definition folders (n : node) : list (string * node) :=
  match n with Node fs _ _ => fs end.
Definition files (n : node) : list row :=
  match n with Node _ fl _ => fl end.
Definition info (n : node) : option row :=
  match n with Node _ _ i => i end.

(** [d.get(k)] *)
Fixpoint dict_get (k : string) (d : list (string * node)) : option node :=
  match d with
  | [] => None
  | (k', v) :: rest => if decide (k' = k) then Some v else dict_get k rest
  end.

(** The entry of key [k] changed in place. *)
Fixpoint dict_alter (f : node -> node) (k : string) (d : list (string * node))
    : list (string * node) :=
  match d with
  | [] => []
  | (k', v) :: rest =>
      if decide (k' = k) then (k', f v) :: rest
      else (k', v) :: dict_alter f k rest
  end.

(** The exceptions the construction of the tree could raise. *)
Inductive tree_exn : Type :=
  | KeyError
  | IndexError
  | NoSplit.     (* AttributeError: a missing path is a float, without [split] *)

Inductive result (A : Type) : Type :=
  | Ok (a : A)
  | Fail (e : tree_exn).
Arguments Ok {A} a.
Arguments Fail {A} e.

(** The first loop over [path_parts]: every missing level is created. *)
Fixpoint ensure (path_parts : list string) (current_dict : list (string * node))
    : list (string * node) :=
  match path_parts with
  | [] => current_dict
  | part :: rest =>
      let current_dict :=
        match dict_get part current_dict with
        | Some _ => current_dict
        | None => current_dict ++ [(part, Node [] [] None)]
        end in
      dict_alter (fun n => Node (ensure rest (folders n)) (files n) (info n))
                 part current_dict
  end.

(** [for part in parts: current_dict = current_dict[part]['folders']] *)
Fixpoint descend (parts : list string) (current_dict : list (string * node))
    : result (list (string * node)) :=
  match parts with
  | [] => Ok current_dict
  | part :: rest =>
      match dict_get part current_dict with
      | Some n => descend rest (folders n)
      | None => Fail KeyError
      end
  end.

(** Going down [init] and changing the entry [last] there. *)
Fixpoint update_at (init : list string) (last : string) (f : node -> node)
    (current_dict : list (string * node)) : result (list (string * node)) :=
  match init with
  | [] =>
      match dict_get last current_dict with
      | Some _ => Ok (dict_alter f last current_dict)
      | None => Fail KeyError
      end
  | part :: rest =>
      match dict_get part current_dict with
      | Some n =>
          match update_at rest last f (folders n) with
          | Ok below =>
              Ok (dict_alter (fun n => Node below (files n) (info n))
                             part current_dict)
          | Fail e => Fail e
          end
      | None => Fail KeyError
      end
  end.

(** [node['info'] = folder] and [node['files'].append(file)] *)
Definition set_info (folder : row) (n : node) : node :=
  Node (folders n) (files n) (Some folder).

Definition append_file (file : row) (n : node) : node :=
  Node (folders n) (files n ++ [file]) (info n).

(** The body of [for _, folder in folders.iterrows()]. *)
Definition add_folder (folder_structure : list (string * node)) (folder : row)
    : result (list (string * node)) :=
  match Folder_Path folder with
  | None => Fail NoSplit
  | Some path =>
      let path_parts := split_on "/" path in
      let folder_structure := ensure path_parts folder_structure in
      match init_last path_parts with
      | Some (init, last) => update_at init last (set_info folder) folder_structure
      | None => Fail IndexError
      end
  end.

(** The body of [for _, file in files.iterrows()]. *)
Definition add_file (folder_structure : list (string * node)) (file : row)
    : result (list (string * node)) :=
  match Folder_Path file with
  | None => Fail NoSplit
  | Some path =>
      let path_parts := split_on "/" path in
      let folder_structure := ensure path_parts folder_structure in
      match descend path_parts folder_structure with
      | Fail e => Fail e
      | Ok _ =>
          match init_last path_parts with
          | Some (init, last) =>
              update_at init last (append_file file) folder_structure
          | None => Ok folder_structure
          end
      end
  end.

Fixpoint add_all (add : list (string * node) -> row -> result (list (string * node)))
    (folder_structure : list (string * node)) (rows : list row)
    : result (list (string * node)) :=
  match rows with
  | [] => Ok folder_structure
  | r :: rest =>
      match add folder_structure r with
      | Ok folder_structure => add_all add folder_structure rest
      | Fail e => Fail e
      end
  end.

(** [folder_structure] once both loops have run. *)
Definition build (df : list row) : result (list (string * node)) :=
  let folders := filter is_folder df in
  let files := filter is_file df in
  match add_all add_folder [] folders with
  | Ok folder_structure => add_all add_file folder_structure files
  | Fail e => Fail e
  end.

(** What [display_folder] writes on the page. *)
Inductive line : Type :=
  | FolderLine (level : nat) (name : string) (file_count subfolder_count : nat)
  | FileLine (level : nat) (name : option string) (age_category : string).

Definition has_info (entry : string * node) : Prop := info (snd entry) ≠ None.

#[global] Instance has_info_dec entry : Decision (has_info entry).
Proof. unfold has_info. destruct (info entry.2); [left|right]; naive_solver. Defined.

Section Display.
(** The state of the checkbox of a folder, by name and level. *)
Variable expanded : string -> nat -> bool.

Fixpoint display_folder (name : string) (content : node) (level : nat)
    : list line :=
  match content with
  | Node subfolders content_files folder_info =>
      match folder_info with
      | None => []
      | Some _ =>
          FolderLine level name (length content_files)
                     (length (filter has_info subfolders))
          :: (if expanded name level then
                ((fun file_info =>
                    FileLine level (Name file_info) (Age_Category file_info))
                   <$> content_files)
                ++ (fix each (entries : list (string * node)) : list line :=
                      match entries with
                      | [] => []
                      | (subfolder_name, subfolder_content) :: rest =>
                          match info subfolder_content with
                          | Some _ =>
                              display_folder subfolder_name subfolder_content
                                             (S level)
                          | None => []
                          end ++ each rest
                      end) subfolders
              else [])
      end
  end.

(** The loop over the root level folders. *)
Fixpoint display_roots (entries : list (string * node)) : list line :=
  match entries with
  | [] => []
  | (folder_name, folder_content) :: rest =>
      match info folder_content with
      | Some _ => display_folder folder_name folder_content 0
      | None => []
      end ++ display_roots rest
  end.

Definition create_folder_tree_view (df : option (list row))
    : result (list line) :=
  match df with
  | None => Ok []
  | Some df =>
      if decide (length df = 0) then Ok []
      else match build df with
           | Ok folder_structure => Ok (display_roots folder_structure)
           | Fail e => Fail e
           end
  end.
End Display.

(** *** Reading the tree *)

(** The node at a path of keys. *)
Fixpoint get_node (path : list string) (d : list (string * node))
    : option node :=
  match path with
  | [] => None
  | k :: rest =>
      match rest with
      | [] => dict_get k d
      | _ :: _ =>
          match dict_get k d with
          | Some n => get_node rest (folders n)
          | None => None
          end
      end
  end.

(** What a node holds itself. *)
Definition payload (n : node) : option row * list row := (info n, files n).

Definition payload_at (path : list string) (d : list (string * node))
    : option (option row * list row) :=
  payload <$> get_node path d.

(** The segments of the folder path of a row. *)
Definition parts_of (r : row) : option (list string) :=
  split_on "/" <$> Folder_Path r.

(** The path [q] leads to or through the folder path of [r]. *)
Definition on_path (q : list string) (r : row) : Prop :=
  match parts_of r with
  | Some p => q `prefix_of` p
  | None => False
  end.

#[global] Instance on_path_dec q r : Decision (on_path q r).
Proof. unfold on_path. destruct (parts_of r); apply _. Defined.

(** What the tree holds at [q] for the folder rows and file rows added so
    far: a node where a row's path leads, with the last folder row of
    exactly that path as info and the file rows of exactly that path. *)
Definition expected (folder_rows file_rows : list row) (q : list string)
    : option (option row * list row) :=
  if decide (q ≠ [] ∧ Exists (on_path q) (folder_rows ++ file_rows)) then
    Some (last (filter (fun r => parts_of r = Some q) folder_rows),
          filter (fun r => parts_of r = Some q) file_rows)
  else None.

(** One step of a loop: the nodes of the path are there, and the last one
    receives the row. *)
Definition after_step (φ : option row * list row → option row * list row)
    (p q : list string) (before : option (option row * list row))
    : option (option row * list row) :=
  (if decide (q = p) then φ else id)
    <$> match before with
        | Some x => Some x
        | None =>
            if decide (q ≠ [] ∧ q `prefix_of` p) then Some (None, []) else None
        end.

End Tree.

(** A folder and a file two levels down, the root level itself not listed. *)
Definition deep_rows : list row :=
  [ Row (Some "Reports") (Some "Folder") None None None None
        (Some "Drive/Reports") (Some 1%Z) None "Unknown" (Some 1) "Drive";
    Row (Some "q1.pdf") (Some "File") None None None None
        (Some "Drive/Reports") None None "Unknown" (Some 1) "Drive" ].

Definition deep_tree : list (string * Tree.node) :=
  match Tree.build deep_rows with
  | Tree.Ok folder_structure => folder_structure
  | Tree.Fail _ => []
  end.


(** * Proofs *)

Import Spec.

(** ** The enrichment pipeline *)

Section LoadDataFacts.
Variable to_datetime : list (option string) -> list (option Z).

(** [load_data] returns on a table whose [Folder Path] column is of text
    dtype, and raises on any other. *)
Lemma load_data_returns now df :
  text_column (raw_Folder_Path <$> df) →
  load_data to_datetime now (Some df) =
  Returned (Some (imap (fun i r =>
    enrich now r (mjoin (to_datetime (raw_Last_Updated <$> df) !! i))) df)).
Proof. intros H. unfold load_data. by rewrite decide_True. Qed.

Lemma load_data_raises now df :
  ¬ text_column (raw_Folder_Path <$> df) →
  load_data to_datetime now (Some df) = Raised AttributeError.
Proof. intros H. unfold load_data. by rewrite decide_False. Qed.


(** The frame [load_data] returns, row by row. *)
Lemma load_data_rows now df out :
  load_data to_datetime now (Some df) = Returned (Some out) →
  length out = length df
  ∧ ∀ i, out !! i =
      (fun r => enrich now r (mjoin (to_datetime (raw_Last_Updated <$> df) !! i)))
        <$> df !! i.
Proof.
  intros E. destruct (decide (text_column (raw_Folder_Path <$> df))) as [H|H].
  - rewrite (load_data_returns now df H) in E. injection E as <-. split.
    + apply length_imap.
    + intros i. apply list_lookup_imap.
  - rewrite (load_data_raises now df H) in E. discriminate E.
Qed.

Lemma load_data_inv now df out :
  load_data to_datetime now (Some df) = Returned (Some out) →
  ∀ i r, out !! i = Some r →
    ∃ raw, df !! i = Some raw
           ∧ r = enrich now raw (mjoin (to_datetime (raw_Last_Updated <$> df) !! i)).
Proof.
  intros E i r Hi.
  destruct (load_data_rows now df out E) as (_ & Hrows).
  rewrite Hrows in Hi.
  destruct (df !! i) as [raw|]; [|discriminate].
  injection Hi as <-. eauto.
Qed.

End LoadDataFacts.

Lemma label_inj b1 b2 : label b1 = label b2 → b1 = b2.
Proof. destruct b1, b2; simpl; intros H; first [reflexivity | discriminate H]. Qed.

Lemma categorize_age_bucket days :
  ∃ b, categorize_age days = label b ∧ in_bucket days b.
Proof.
  destruct days as [d|]; simpl.
  - destruct (Z.leb_spec d 30); [exists Recent; simpl; auto with lia|].
    destruct (Z.leb_spec d 90); [exists ModeratelyOld; simpl; auto with lia|].
    destruct (Z.leb_spec d 365); [exists Old; simpl; auto 6 with lia|].
    exists VeryOld; simpl; auto 6 with lia.
  - exists Unknown; auto.
Qed.


Lemma in_bucket_unique days b1 b2 :
  in_bucket days b1 → in_bucket days b2 → b1 = b2.
Proof.
  destruct days as [d|]; simpl; [|congruence].
  intros [[? ->]|[[? ->]|[[? ->]|[? ->]]]] [[? ->]|[[? ->]|[[? ->]|[? ->]]]];
    first [reflexivity | lia].
Qed.

(** C1. The age bucket of every record that [load_data] returns is
    [categorize_age] of its days since update, and that function follows the
    thresholds in order: missing gives Unknown, at most 30 Recent, above 30 and
    at most 90 ModeratelyOld, above 90 and at most 365 Old, above 365 VeryOld.
    The values 30, 90 and 365 fall in Recent, ModeratelyOld and Old, 366 in
    VeryOld, and a negative number of days is Recent: the days since update
    are the whole days between the parsed instant and the clock reading,
    rounded down and not clamped. *)
Theorem age_bucket_thresholds to_datetime now df out i r :
  load_data to_datetime now (Some df) = Returned (Some out) →
  out !! i = Some r →
  Age_Category r = categorize_age (Days_Since_Update r)
  ∧ Days_Since_Update r = (fun t => dt_days (now - t)) <$> Last_Updated r
  ∧ (∀ b, Age_Category r = label b ↔ in_bucket (Days_Since_Update r) b)
  ∧ (∀ days b, categorize_age days = label b ↔ in_bucket days b)
  ∧ categorize_age (Some 30%Z) = label Recent
  ∧ categorize_age (Some 90%Z) = label ModeratelyOld
  ∧ categorize_age (Some 365%Z) = label Old
  ∧ categorize_age (Some 366%Z) = label VeryOld
  ∧ (∀ d, (d < 0)%Z → categorize_age (Some d) = label Recent).
Proof.
  intros E Hi.
  assert (Hcat : ∀ days b, categorize_age days = label b ↔ in_bucket days b).
  { intros days b. destruct (categorize_age_bucket days) as (b' & Hl & Hb).
    split.
    - intros H. rewrite Hl in H. by apply label_inj in H as <-.
    - intros H. by rewrite (in_bucket_unique _ _ _ H Hb). }
  destruct (load_data_inv _ _ _ _ E _ _ Hi) as (raw & _ & ->). simpl.
  split; [reflexivity|].
  split; [reflexivity|].
  split; [intros b; apply Hcat|].
  split; [exact Hcat|].
  do 4 (split; [reflexivity|]).
  intros d Hd. apply (Hcat (Some d) Recent). simpl. left. split; [lia|reflexivity].
Qed.

Lemma age_bucket_thresholds_witness :
  Age_Category (enrich (400 * ns_per_day)%Z sample_raw (Some 0%Z))
  = categorize_age (Some 400%Z).
Proof.
  refine (proj1
    (age_bucket_thresholds to_datetime_known (400 * ns_per_day)%Z [sample_raw]
       [enrich (400 * ns_per_day)%Z sample_raw (Some 0%Z)] 0
       (enrich (400 * ns_per_day)%Z sample_raw (Some 0%Z)) _ _)); reflexivity.
Defined.

(** C4 does not hold of the program. On a table that has records and no
    text in [Folder Path] - every item sits at the root of the drive, or
    every path reads as a number - [load_data] returns no record: the [.str]
    accessor raises AttributeError, where C4 promises one enriched record for
    each input record. *)
Theorem load_data_fails_without_folder_path to_datetime now df :
  df ≠ [] →
  Forall (fun r => raw_Folder_Path r = None) df →
  load_data to_datetime now (Some df) = Raised AttributeError.
Proof.
  intros Hne Hall. apply load_data_raises. intros [Hnil|Hex].
  - by apply fmap_nil_inv in Hnil.
  - apply Exists_exists in Hex as (cell & Hcell & Hsome).
    apply list_elem_of_fmap in Hcell as (r & -> & Hr).
    rewrite Forall_forall in Hall. rewrite (Hall r Hr) in Hsome.
    by apply is_Some_None in Hsome.
Qed.

Lemma load_data_fails_without_folder_path_witness :
  load_data to_datetime_known 0 (Some [root_file]) = Raised AttributeError.
Proof.
  apply (load_data_fails_without_folder_path to_datetime_known 0 [root_file]).
  - discriminate.
  - repeat constructor.
Defined.




(** C6 fails on the program: [load_data] reads the clock, and two runs on
    the same table a day apart disagree on the days since update. *)
Lemma clock_changes_the_result : ¬ same_on_every_run to_datetime_known.
Proof.
  intros H. specialize (H 0%Z ns_per_day [sample_raw]). discriminate H.
Qed.

(** C6, amended. Two runs on the same raw input agree on the parsed
    [Last Updated], the folder depth and the parent path whatever the two
    clock readings are; they agree on every derived field when the two
    readings are the same number of whole days after each parsed instant, in
    particular when the readings are equal. *)
Theorem load_data_two_runs to_datetime now1 now2 df out1 out2 :
  load_data to_datetime now1 (Some df) = Returned (Some out1) →
  load_data to_datetime now2 (Some df) = Returned (Some out2) →
  Last_Updated <$> out1 = Last_Updated <$> out2
  ∧ Folder_Level <$> out1 = Folder_Level <$> out2
  ∧ Parent_Folder <$> out1 = Parent_Folder <$> out2
  ∧ (Forall (same_day now1 now2) (to_datetime (raw_Last_Updated <$> df)) →
     out1 = out2).
Proof.
  intros E1 E2.
  assert (Hcol : ∀ {A} (f : row → A),
            (∀ raw t, f (enrich now1 raw t) = f (enrich now2 raw t)) →
            f <$> out1 = f <$> out2).
  { intros A f Hf. apply list_eq. intros i. rewrite !list_lookup_fmap.
    destruct (load_data_rows to_datetime now1 df out1 E1) as (_ & H1).
    destruct (load_data_rows to_datetime now2 df out2 E2) as (_ & H2).
    rewrite H1, H2. destruct (df !! i); simpl; [by rewrite Hf|done]. }
  split; [by apply Hcol|]. split; [by apply Hcol|]. split; [by apply Hcol|].
  intros Hsame. apply list_eq. intros i.
  destruct (load_data_rows to_datetime now1 df out1 E1) as (_ & H1).
  destruct (load_data_rows to_datetime now2 df out2 E2) as (_ & H2).
  rewrite H1, H2. destruct (df !! i) as [raw|]; simpl; [|done].
  f_equal.
  destruct (to_datetime (raw_Last_Updated <$> df) !! i) as [[t|]|] eqn:Ht;
    simpl; try reflexivity.
  rewrite Forall_lookup in Hsame. specialize (Hsame _ _ Ht). simpl in Hsame.
  unfold enrich. simpl. by rewrite Hsame.
Qed.

Lemma load_data_two_runs_witness :
  [enrich (3 * ns_per_day)%Z sample_raw (Some 0%Z)]
  = [enrich (3 * ns_per_day + 5)%Z sample_raw (Some 0%Z)].
Proof.
  refine (proj2 (proj2 (proj2
    (load_data_two_runs to_datetime_known (3 * ns_per_day)%Z
       (3 * ns_per_day + 5)%Z [sample_raw] _ _ _ _))) _).
  - reflexivity.
  - reflexivity.
  - repeat constructor.
Defined.



(** ** The suggestion engine *)

Lemma find_app {A} (P : A → bool) (l1 l2 : list A) :
  find P (l1 ++ l2) = match find P l1 with Some x => Some x | None => find P l2 end.
Proof.
  induction l1 as [|a l1 IH]; simpl; [reflexivity|].
  destruct (P a); [reflexivity|exact IH].
Qed.

Lemma find_Some_elem {A} (P : A → bool) (l : list A) x :
  find P l = Some x → x ∈ l ∧ P x = true.
Proof.
  induction l as [|a l IH]; simpl; [discriminate|].
  destruct (P a) eqn:Pa.
  - intros [= <-]. split; [left|exact Pa].
  - intros H. destruct (IH H). split; [by right|done].
Qed.

Lemma find_None_elem {A} (P : A → bool) (l : list A) :
  find P l = None ↔ ∀ x, x ∈ l → P x = false.
Proof.
  induction l as [|a l IH]; simpl.
  - split; [intros _ x Hx; by apply elem_of_nil in Hx|done].
  - destruct (P a) eqn:Pa.
    + split; [discriminate|]. intros H. specialize (H a (list_elem_of_here _ _)).
      congruence.
    + rewrite IH. split.
      * intros H x [->|Hx]%elem_of_cons; auto.
      * intros H x Hx. apply H. by right.
Qed.

Section Scan.
Context {U : Unicode}.

Lemma tracks_nil : tracks ∅ [].
Proof. intros p. apply lookup_empty. Qed.

Lemma tracks_collision m earlier name first :
  tracks m earlier →
  m !! name_pattern name = Some first →
  tracks m (earlier ++ [name]).
Proof.
  intros Hm Hfirst p. rewrite find_app, <- Hm.
  destruct (m !! p) eqn:Hp; [reflexivity|]. simpl.
  case_bool_decide; [congruence|reflexivity].
Qed.

Lemma tracks_fresh m earlier name :
  tracks m earlier →
  m !! name_pattern name = None →
  tracks (<[name_pattern name := name]> m) (earlier ++ [name]).
Proof.
  intros Hm Hnone p. rewrite find_app, <- Hm.
  destruct (decide (name_pattern name = p)) as [<-|Hne].
  - rewrite lookup_insert_eq, Hnone. simpl.
    by rewrite bool_decide_eq_true_2.
  - rewrite lookup_insert_ne by done.
    destruct (m !! p); [reflexivity|]. simpl.
    by rewrite bool_decide_eq_false_2.
Qed.

(** The loop of rule 3 computes the candidates of the specification. *)
Lemma scan_rows_candidates names : ∀ file_df st earlier,
  Name <$> file_df = Some <$> names →
  tracks (seen_patterns st) earlier →
  ∃ st',
    scan_rows st file_df = Returned st'
    ∧ duplicate_candidates st' =
        duplicate_candidates st ++ candidates name_pattern earlier names.
Proof.
  induction names as [|name names IH]; intros file_df st earlier Hn Hm.
  - destruct file_df; [|discriminate]. exists st. simpl.
    by rewrite app_nil_r.
  - destruct file_df as [|r file_df]; [discriminate|].
    simpl in Hn. injection Hn as Hr Hn.
    simpl. unfold scan_row, first_seen. rewrite Hr, Hm.
    destruct (find _ earlier) as [first|] eqn:Hf; simpl.
    + destruct (IH file_df
                  (Scan (seen_patterns st) (duplicate_candidates st ++ [first; name]))
                  (earlier ++ [name]) Hn) as (st' & E & Hc).
      { simpl. eapply tracks_collision; [done|]. by rewrite Hm. }
      exists st'. split; [exact E|]. rewrite Hc. simpl.
      by rewrite <- app_assoc.
    + destruct (IH file_df
                  (Scan (<[name_pattern name := name]> (seen_patterns st))
                        (duplicate_candidates st))
                  (earlier ++ [name]) Hn) as (st' & E & Hc).
      { simpl. apply tracks_fresh; [done|]. by rewrite Hm. }
      exists st'. split; [exact E|]. exact Hc.
Qed.

(** A file whose name is no text stops the loop with an exception. *)
Lemma scan_rows_raises file_df : ∀ st,
  None ∈ Name <$> file_df → scan_rows st file_df = Raised AttributeError.
Proof.
  induction file_df as [|r file_df IH]; intros st Hin.
  - by apply elem_of_nil in Hin.
  - simpl. unfold scan_row. destruct (Name r) as [name|] eqn:Hr; [|reflexivity].
    simpl in Hin. rewrite Hr in Hin.
    apply elem_of_cons in Hin as [?|Hin]; [discriminate|].
    destruct (seen_patterns st !! name_pattern name); simpl; by apply IH.
Qed.

Lemma candidates_nonempty pat names : ∀ earlier,
  candidates pat earlier names ≠ [] ↔
  ∃ j a b, names !! j = Some b ∧ a ∈ earlier ++ take j names ∧ pat a = pat b.
Proof.
  induction names as [|name names IH]; intros earlier; simpl.
  - split; [done|]. intros (j & a & b & Hj & _). by rewrite lookup_nil in Hj.
  - unfold first_seen. destruct (find _ earlier) as [first|] eqn:Hf.
    + split; [intros _|done].
      apply find_Some_elem in Hf as [Hin Hp].
      apply bool_decide_eq_true_1 in Hp.
      exists 0, first, name. simpl. rewrite app_nil_r. auto.
    + rewrite IH. rewrite find_None_elem in Hf. split.
      * intros (j & a & b & Hj & Ha & Hp).
        exists (S j), a, b. simpl. split; [done|]. split; [|done].
        by rewrite <- app_assoc in Ha.
      * intros (j & a & b & Hj & Ha & Hp).
        destruct j as [|j]; simpl in *.
        { injection Hj as <-. rewrite app_nil_r in Ha.
          specialize (Hf a Ha). apply bool_decide_eq_false_1 in Hf. done. }
        exists j, a, b. split; [done|]. split; [|done].
        by rewrite <- app_assoc.
Qed.
End Scan.

Section SuggestionFacts.
Context {U : Unicode}.
Variable set_to_list : gset string → list string.

Lemma rule2_app df s : rule2 df s = s ++ rule2 df [].
Proof. unfold rule2. case_decide; [reflexivity|by rewrite app_nil_r]. Qed.

Lemma rule4_app df s : rule4 df s = s ++ rule4 df [].
Proof. unfold rule4. case_decide; [reflexivity|by rewrite app_nil_r]. Qed.

Lemma rule3_scan df s :
  rule3 set_to_list df s =
  obind (scan_rows (Scan ∅ []) (filter is_file df))
        (fun st => Returned
           (s ++ duplicates_group set_to_list (duplicate_candidates st))).
Proof.
  unfold rule3. case_decide as Hlen.
  - destruct (scan_rows _ _) as [st|e]; simpl; [|reflexivity].
    destruct (duplicate_candidates st); simpl; by rewrite ?app_nil_r.
  - destruct (filter is_file df); simpl in *; [|lia]. by rewrite app_nil_r.
Qed.

(** The result of the engine: the groups of the four rules, one after the
    other, once the loop of rule 3 has returned. *)
Lemma engine_groups df :
  ai_archive_suggestions set_to_list df =
  obind (scan_rows (Scan ∅ []) (filter is_file df))
        (fun st => Returned
           (rule1 df [] ++ rule2 df []
            ++ duplicates_group set_to_list (duplicate_candidates st)
            ++ rule4 df [])).
Proof.
  unfold ai_archive_suggestions. rewrite rule3_scan.
  destruct (scan_rows _ _) as [st|e]; simpl; [|reflexivity].
  rewrite rule4_app, (rule2_app df (rule1 df [])).
  by rewrite <- !app_assoc.
Qed.

Lemma engine_inv df gs :
  ai_archive_suggestions set_to_list df = Returned gs →
  ∃ st,
    scan_rows (Scan ∅ []) (filter is_file df) = Returned st
    ∧ gs = rule1 df [] ++ rule2 df []
           ++ duplicates_group set_to_list (duplicate_candidates st)
           ++ rule4 df [].
Proof.
  rewrite engine_groups. destruct (scan_rows _ _) as [st|e]; simpl; [|discriminate].
  intros [= <-]. eauto.
Qed.

Lemma lookup_groups g i (l1 l2 l3 l4 : list suggestion) :
  (l1 ++ l2 ++ l3 ++ l4) !! i = Some g → g ∈ l1 ∨ g ∈ l2 ∨ g ∈ l3 ∨ g ∈ l4.
Proof.
  intros H%list_elem_of_lookup_2. rewrite !elem_of_app in H. tauto.
Qed.

Lemma in_rule1 df g :
  g ∈ rule1 df [] →
  g = {| category := "Very Old Files";
         count := length (filter very_old_file df);
         reason := "Files not accessed in over 1 year";
         confidence := High;
         items := take 10 (Name <$> filter very_old_file df) |}.
Proof.
  unfold rule1. case_decide; simpl; intros Hg.
  - by apply list_elem_of_singleton in Hg.
  - by apply elem_of_nil in Hg.
Qed.

Lemma in_rule2 df g :
  g ∈ rule2 df [] →
  g = {| category := "Empty Folders";
         count := length (filter empty_folder df);
         reason := "Folders containing no files";
         confidence := High;
         items := Name <$> filter empty_folder df |}.
Proof.
  unfold rule2. case_decide; simpl; intros Hg.
  - by apply list_elem_of_singleton in Hg.
  - by apply elem_of_nil in Hg.
Qed.

Lemma in_rule4 df g :
  g ∈ rule4 df [] →
  g = {| category := "Large Old Folders";
         count := length (filter old_folder df);
         reason := "Folders with many files that haven't been updated recently";
         confidence := Medium;
         items := take 5 (Name <$> filter old_folder df) |}.
Proof.
  unfold rule4. case_decide; simpl; intros Hg.
  - by apply list_elem_of_singleton in Hg.
  - by apply elem_of_nil in Hg.
Qed.

Lemma in_duplicates_group c g :
  g ∈ duplicates_group set_to_list c →
  c ≠ []
  ∧ g = {| category := "Potential Duplicates";
           count := size (list_to_set c : gset string);
           reason := "Files with similar names that might be duplicates";
           confidence := Medium;
           items := Some <$> take 10 (set_to_list (list_to_set c)) |}.
Proof.
  destruct c; simpl; intros Hg.
  - by apply elem_of_nil in Hg.
  - by apply list_elem_of_singleton in Hg.
Qed.
End SuggestionFacts.

(** C10. Every group the engine returns has confidence High or Medium,
    never Low, and its category is one of the four labels Very Old Files,
    Empty Folders, Potential Duplicates, Large Old Folders. *)
Theorem confidence_and_category {U : Unicode} set_to_list df gs i g :
  ai_archive_suggestions set_to_list df = Returned gs →
  gs !! i = Some g →
  (confidence g = High ∨ confidence g = Medium)
  ∧ confidence g ≠ Low
  ∧ category g ∈ rule_order.
Proof.
  intros (st & _ & ->)%engine_inv Hi. unfold rule_order.
  apply lookup_groups in Hi
    as [->%in_rule1|[->%in_rule2|[[_ ->]%in_duplicates_group| ->%in_rule4]]];
    simpl; (split; [auto|]); (split; [discriminate|]); set_solver.
Qed.

Lemma confidence_and_category_witness :
  (confidence (Suggestion "Empty Folders" 1 "Folders containing no files"
                    High [Some "Reports"]) = High
   ∨ confidence (Suggestion "Empty Folders" 1 "Folders containing no files"
                      High [Some "Reports"]) = Medium)
  ∧ High ≠ Low
  ∧ "Empty Folders" ∈ rule_order.
Proof.
  refine (confidence_and_category (U := ascii_text) elements
            [Row (Some "Reports") (Some "Folder") None None None None None
                 (Some 0%Z) None "Unknown" None "Root"]
            _ 0 _ _ _); reflexivity.
Defined.

Lemma filter_nonempty {A} (P : A → Prop) `{!∀ x, Decision (P x)} (l : list A) :
  0 < length (filter P l) ↔ ∃ x, x ∈ l ∧ P x.
Proof.
  split.
  - destruct (filter P l) as [|x l'] eqn:E; simpl; [lia|]. intros _.
    exists x. apply and_comm, (list_elem_of_filter P). rewrite E. left.
  - intros (x & Hx & HP).
    assert (Hin : x ∈ filter P l) by (by apply list_elem_of_filter).
    destruct (filter P l); simpl; [by apply elem_of_nil in Hin|lia].
Qed.

Lemma file_names df :
  Forall (fun r => is_file r → is_Some (Name r)) df →
  ∃ names, Name <$> filter is_file df = Some <$> names.
Proof.
  induction 1 as [|r df Hr _ (names & IH)]; [by exists []|].
  rewrite filter_cons. case_decide as Hf; [|by exists names].
  destruct (Hr Hf) as [name Hname].
  exists (name :: names). by rewrite !fmap_cons, Hname, IH.
Qed.

Lemma collision_candidates {U : Unicode} df names :
  Name <$> filter is_file df = Some <$> names →
  candidates name_pattern [] names ≠ [] ↔ collision df.
Proof.
  intros Hn. rewrite candidates_nonempty. unfold collision. rewrite Hn. split.
  - intros (j & a & b & Hj & Ha & Hp). simpl in Ha.
    apply list_elem_of_lookup in Ha as [i Hi].
    apply lookup_take_Some in Hi as [Hi Hlt].
    exists i, j, a, b. rewrite !list_lookup_fmap, Hi, Hj. auto.
  - intros (i & j & a & b & Hlt & Hi & Hj & Hp).
    rewrite list_lookup_fmap in Hi, Hj.
    destruct (names !! i) as [a'|] eqn:Ei; [|discriminate].
    destruct (names !! j) as [b'|] eqn:Ej; [|discriminate].
    simpl in Hi, Hj. injection Hi as ->. injection Hj as ->.
    exists j, a, b. split; [done|]. split; [|done]. simpl.
    apply list_elem_of_lookup. exists i. by apply lookup_take_Some.
Qed.

(** C3. In every group the engine returns, [count] is at least the number
    of items. [count] is the number of all matches of the rule (for rule 3
    the size of the set of candidate names); the items are the names of the
    first 10 matches in record order for Very Old Files, of all matches for
    Empty Folders, 10 elements of the set at most for Potential Duplicates,
    and the names of the first 5 matches for Large Old Folders. *)
Theorem count_bounds_items {U : Unicode} set_to_list df gs i g :
  (∀ X, set_to_list X ≡ₚ elements X) →
  ai_archive_suggestions set_to_list df = Returned gs →
  gs !! i = Some g →
  (length (items g) ≤ count g)%nat
  ∧ (category g = "Very Old Files" →
       count g = length (filter very_old_file df)
       ∧ items g = take 10 (Name <$> filter very_old_file df))
  ∧ (category g = "Empty Folders" →
       count g = length (filter empty_folder df)
       ∧ items g = Name <$> filter empty_folder df)
  ∧ (category g = "Potential Duplicates" →
       ∃ st,
         scan_rows (Scan ∅ []) (filter is_file df) = Returned st
         ∧ count g = size (list_to_set (duplicate_candidates st) : gset string)
         ∧ items g = Some <$> take 10
                       (set_to_list (list_to_set (duplicate_candidates st)))
         ∧ length (items g) = count g `min` 10)
  ∧ (category g = "Large Old Folders" →
       count g = length (filter old_folder df)
       ∧ items g = take 5 (Name <$> filter old_folder df)).
Proof.
  intros Hperm (st & Hscan & ->)%engine_inv Hi.
  assert (Hsize : ∀ X, length (set_to_list X) = size X).
  { intros X. by rewrite (Permutation_length (Hperm X)). }
  apply lookup_groups in Hi
    as [->%in_rule1|[->%in_rule2|[[_ ->]%in_duplicates_group| ->%in_rule4]]];
    simpl.
  - split; [rewrite length_take, length_fmap; lia|].
    repeat split; try discriminate.
  - split; [by rewrite length_fmap|].
    repeat split; try discriminate.
  - split; [rewrite length_fmap, length_take, Hsize; lia|].
    split; [discriminate|]. split; [discriminate|]. split; [|discriminate].
    intros _. exists st. repeat split; try done.
    rewrite length_fmap, length_take, Hsize. lia.
  - split; [rewrite length_take, length_fmap; lia|].
    repeat split; try discriminate.
Qed.

Lemma count_bounds_items_witness :
  (length (items plan_group) ≤ count plan_group)%nat.
Proof.
  refine (proj1 (count_bounds_items (U := ascii_text) elements plan_files
                   [plan_group] 0
                   plan_group _ _ _)).
  - intros X. reflexivity.
  - vm_compute. reflexivity.
  - reflexivity.
Defined.

Lemma optional_labels (b1 b2 b3 b4 : bool) :
  let l := (if b1 then ["Very Old Files"] else [])
           ++ (if b2 then ["Empty Folders"] else [])
           ++ (if b3 then ["Potential Duplicates"] else [])
           ++ (if b4 then ["Large Old Folders"] else []) in
  sublist l rule_order
  ∧ ("Very Old Files" ∈ l ↔ b1 = true)
  ∧ ("Empty Folders" ∈ l ↔ b2 = true)
  ∧ ("Potential Duplicates" ∈ l ↔ b3 = true)
  ∧ ("Large Old Folders" ∈ l ↔ b4 = true).
Proof.
  unfold rule_order.
  destruct b1, b2, b3, b4; simpl;
    (split;
     [repeat first [apply sublist_nil | apply sublist_skip | apply sublist_cons]|]);
    repeat split; intros Hx; try reflexivity; try discriminate Hx.
  all: first [ compute_done | exfalso; revert Hx; compute_done ].
Qed.

Lemma rule1_categories df :
  category <$> rule1 df [] =
  if bool_decide (0 < length (filter very_old_file df))
  then ["Very Old Files"] else [].
Proof. unfold rule1. rewrite decide_bool_decide. by destruct (bool_decide _). Qed.

Lemma rule2_categories df :
  category <$> rule2 df [] =
  if bool_decide (0 < length (filter empty_folder df))
  then ["Empty Folders"] else [].
Proof. unfold rule2. rewrite decide_bool_decide. by destruct (bool_decide _). Qed.

Lemma rule4_categories df :
  category <$> rule4 df [] =
  if bool_decide (0 < length (filter old_folder df))
  then ["Large Old Folders"] else [].
Proof. unfold rule4. rewrite decide_bool_decide. by destruct (bool_decide _). Qed.

Lemma duplicates_categories set_to_list c :
  category <$> duplicates_group set_to_list c =
  if bool_decide (c ≠ []) then ["Potential Duplicates"] else [].
Proof. by destruct c. Qed.

(** C8 fails on the program: [load_data] does not check the names, and a
    File record whose [Name] cell is empty passes it as it is and stops the
    engine, where the loop of rule 3 calls [lower] on the cell. *)
Lemma nameless_file_stops_the_engine :
  ¬ never_fails_on_enriched (U := ascii_text) to_datetime_known elements.
Proof.
  intros H. destruct (H 0%Z [nameless_raw] _ eq_refl) as (gs & E).
  discriminate E.
Qed.

(** C8, amended. On an enriched table in which every File record has a text
    as its name, the engine returns, and returns the groups in the order Very
    Old Files, Empty Folders, Potential Duplicates, Large Old Folders; a rule
    has its group exactly when it matches at least one record (for rule 3:
    when two files share a name pattern). An empty table gives no group and
    no error. *)
Theorem groups_in_rule_order {U : Unicode} set_to_list df :
  Forall (fun r => is_file r → is_Some (Name r)) df →
  ai_archive_suggestions set_to_list [] = Returned []
  ∧ ∃ gs,
      ai_archive_suggestions set_to_list df = Returned gs
      ∧ sublist (category <$> gs) rule_order
      ∧ ("Very Old Files" ∈ category <$> gs ↔ ∃ r, r ∈ df ∧ very_old_file r)
      ∧ ("Empty Folders" ∈ category <$> gs ↔ ∃ r, r ∈ df ∧ empty_folder r)
      ∧ ("Potential Duplicates" ∈ category <$> gs ↔ collision df)
      ∧ ("Large Old Folders" ∈ category <$> gs ↔ ∃ r, r ∈ df ∧ old_folder r).
Proof.
  intros Hwf. split; [reflexivity|].
  destruct (file_names df Hwf) as (names & Hnames).
  destruct (scan_rows_candidates names (filter is_file df) (Scan ∅ []) []
              Hnames tracks_nil) as (st & Hscan & Hc).
  simpl in Hc.
  eexists. split; [rewrite engine_groups, Hscan; reflexivity|].
  rewrite !fmap_app, rule1_categories, rule2_categories, rule4_categories,
    duplicates_categories.
  destruct (optional_labels
              (bool_decide (0 < length (filter very_old_file df)))
              (bool_decide (0 < length (filter empty_folder df)))
              (bool_decide (duplicate_candidates st ≠ []))
              (bool_decide (0 < length (filter old_folder df))))
    as (Hsub & H1 & H2 & H3 & H4).
  split; [exact Hsub|].
  rewrite H1, H2, H3, H4, !bool_decide_eq_true, !filter_nonempty.
  rewrite Hc, (collision_candidates df names Hnames).
  done.
Qed.

Lemma groups_in_rule_order_witness :
  ∃ gs, ai_archive_suggestions (U := ascii_text) elements plan_files
        = Returned gs
        ∧ sublist (category <$> gs) rule_order.
Proof.
  destruct (groups_in_rule_order (U := ascii_text) elements plan_files) as (_ & gs & E & Hsub & _).
  - repeat constructor; intros _; eexists; reflexivity.
  - exists gs. split; [exact E|exact Hsub].
Defined.

(** ** Text and the matcher *)

#[local] Arguments Ascii.eqb : simpl never.

Lemma append_nil_l (t : string) : "" +:+ t = t.
Proof. reflexivity. Qed.

Lemma append_cons c (s t : string) : String c s +:+ t = String c (s +:+ t).
Proof. reflexivity. Qed.

Lemma append_assoc (s t u : string) : (s +:+ t) +:+ u = s +:+ (t +:+ u).
Proof.
  induction s as [|c s IH]; [reflexivity|]. by rewrite !append_cons, IH.
Qed.

Lemma prefix_of_append (s t : string) : prefix_of (String.length s) (s +:+ t) = s.
Proof.
  induction s as [|c s IH]; [by destruct t|]. rewrite append_cons. simpl.
  by rewrite IH.
Qed.

Lemma count_char_append c (s t : string) :
  count_char c (s +:+ t) = count_char c s + count_char c t.
Proof.
  induction s as [|a s IH]; [reflexivity|]. rewrite append_cons. simpl.
  rewrite IH. lia.
Qed.

Lemma strip_prefix_Some (p s t : string) :
  strip_prefix p s = Some t → s = p +:+ t.
Proof.
  revert s. induction p as [|a p IH]; intros s; simpl.
  - by intros [= ->].
  - destruct s as [|b s]; [discriminate|].
    destruct (Ascii.eqb_spec a b) as [->|]; [|discriminate].
    intros H. by rewrite append_cons, (IH _ H).
Qed.

(** [str.count('/')] counts the occurrences of the character. *)
Lemma findall_slash (s : string) : findall_len slash_re s = count_char "/" s.
Proof.
  unfold findall_len. induction s as [|c s IH]; simpl; [reflexivity|].
  unfold match_len. simpl. rewrite (Ascii.eqb_sym c).
  destruct (Ascii.eqb "/" c); simpl; by rewrite IH.
Qed.

Section ParentPattern.
Context {R : Type}.

(** A repetition fails when what follows it fails wherever it is tried. *)
Lemma greedy_none cs (k : nat → string → option R) (s : string) : ∀ n,
  (∀ m u t, s = u +:+ t → k m t = None) →
  greedy cs n s k = None.
Proof.
  induction s as [|c s IH]; intros n Hk; simpl.
  - by apply (Hk n "" "").
  - assert (Hhere : k n (String c s) = None) by (by apply (Hk n "" (String c s))).
    destruct (cs_mem cs c); [|exact Hhere].
    rewrite IH; [exact Hhere|].
    intros m u t ->. apply (Hk m (String c u) t). by rewrite append_cons.
Qed.

Lemma last_segment_no_slash (u t : string) :
  count_char "/" (u +:+ t) = 0 → last_segment t = false.
Proof.
  rewrite count_char_append. destruct t as [|c t]; simpl; [done|].
  destruct (Ascii.eqb_spec c "/"); [lia|done].
Qed.

Lemma last_segment_longer (c : ascii) (u after : string) :
  last_segment (String c (u +:+ String "/" after)) = false.
Proof.
  simpl. rewrite count_char_append. simpl.
  rewrite (bool_decide_eq_false_2 (_ = 0)) by lia.
  by rewrite andb_false_r.
Qed.

Lemma last_segment_here (after : string) :
  count_char "/" after = 0 →
  last_segment (String "/" after) = negb (bool_decide (after = "")).
Proof.
  intros H. simpl. rewrite (bool_decide_eq_true_2 _ H).
  by rewrite andb_true_r.
Qed.

(** [[^/]+$] after the separator. *)
Lemma not_slash_run (x : R) (t : string) : ∀ n,
  greedy (CsNot "/") n t (fun _ s3 => if at_eol s3 then Some x else None)
  = if bool_decide (count_char "/" t = 0) then Some x else None.
Proof.
  induction t as [|c t IH]; intros n; simpl; [reflexivity|].
  destruct (Ascii.eqb_spec c "/") as [->|Hc]; simpl.
  - by destruct t.
  - rewrite IH. case_bool_decide as Ht; [reflexivity|].
    destruct t as [|c' t]; [done|]. reflexivity.
Qed.
End ParentPattern.

(** The part of [parent_re] behind the group. *)
Lemma exec_last_segment (n : nat) (s : string) (g : list string) :
  exec (Cat (Lit "/") (Cat (Plus (CsNot "/")) Eol)) n s g (fun _ _ g' => Some g')
  = if last_segment s then Some g else None.
Proof.
  destruct s as [|c t]; simpl; [reflexivity|].
  rewrite (Ascii.eqb_sym c).
  destruct (Ascii.eqb_spec "/" c) as [<-|Hc]; simpl; [|reflexivity].
  destruct t as [|c' t]; simpl; [reflexivity|].
  destruct (Ascii.eqb_spec c' "/") as [->|Hc']; simpl; [reflexivity|].
  rewrite (not_slash_run g t). simpl.
  case_bool_decide as Ht; [reflexivity|].
  destruct t as [|c'' t]; [done|]. reflexivity.
Qed.

Lemma greedy_ext {R} cs (k1 k2 : nat → string → option R) (s : string) : ∀ n,
  (∀ m t, k1 m t = k2 m t) → greedy cs n s k1 = greedy cs n s k2.
Proof.
  induction s as [|c s IH]; intros n Hk; simpl; [apply Hk|].
  destruct (cs_mem cs c); [|apply Hk]. by rewrite (IH (S n) Hk), Hk.
Qed.

Lemma search_cons r c (s : string) :
  search r (String c s)
  = match exec r 0 (String c s) [] (fun _ _ g => Some g) with
    | Some g => Some g
    | None => search r s
    end.
Proof. reflexivity. Qed.

(** One attempt of [parent_re] at the front of [s]: a run of characters
    other than line feed, cut back to where the last segment starts. *)
Lemma parent_attempt (s : string) :
  exec parent_re 0 s [] (fun _ _ g => Some g)
  = match s with
    | String c s' =>
        if cs_mem CsDot c
        then greedy CsDot 1 s'
               (fun n t => if last_segment t then Some [prefix_of n s] else None)
        else None
    | EmptyString => None
    end.
Proof.
  destruct s as [|c s']; [reflexivity|].
  change (exec parent_re 0 (String c s') [] (fun _ _ g => Some g)) with
    (if cs_mem CsDot c
     then greedy CsDot 1 s'
            (fun n t =>
               exec (Cat (Lit "/") (Cat (Plus (CsNot "/")) Eol)) n t
                    ([] ++ [prefix_of (n - 0) (String c s')])
                    (fun _ _ g => Some g))
     else None).
  destruct (cs_mem CsDot c); [|reflexivity].
  apply greedy_ext. intros m t. rewrite exec_last_segment.
  by rewrite Nat.sub_0_r.
Qed.

Section ParentSearch.
Variable after : string.
Hypothesis after_no_slash : count_char "/" after = 0.

Section Run.
Context {R : Type} (f : nat → R) (K : nat → string → option R).
Hypothesis K_spec : ∀ m t, K m t = if last_segment t then Some (f m) else None.

Lemma dot_run_after (u t : string) n :
  count_char "/" (u +:+ t) = 0 → greedy CsDot n t K = None.
Proof.
  intros Hno. apply greedy_none. intros m u' t' ->.
  rewrite K_spec, (last_segment_no_slash (u +:+ u') t'); [reflexivity|].
  by rewrite append_assoc.
Qed.

Lemma dot_run (u : string) : ∀ n,
  greedy CsDot n (u +:+ String "/" after) K
  = if bool_decide (count_char LF u = 0) && negb (bool_decide (after = ""))
    then Some (f (n + String.length u)) else None.
Proof.
  induction u as [|c u IH]; intros n.
  - rewrite append_nil_l. simpl greedy.
    change (cs_mem CsDot "/") with true. cbv iota.
    rewrite (dot_run_after "" after (S n)) by done.
    rewrite K_spec, last_segment_here by done.
    rewrite Nat.add_0_r. reflexivity.
  - rewrite append_cons. simpl greedy.
    destruct (Ascii.eqb_spec c LF) as [->|Hc]; simpl negb; cbv iota.
    + rewrite K_spec, last_segment_longer. reflexivity.
    + rewrite IH, K_spec, last_segment_longer. simpl count_char.
      rewrite (proj2 (Ascii.eqb_neq c LF) Hc). simpl.
      rewrite Nat.add_succ_r.
      by destruct (bool_decide _ && _).
Qed.
End Run.

(** An attempt in front of the last separator succeeds when the text up to
    the separator is not empty and has no line feed, and a segment follows. *)
Lemma parent_attempt_before (b : string) :
  exec parent_re 0 (b +:+ String "/" after) [] (fun _ _ g => Some g)
  = if negb (bool_decide (b = "")) && bool_decide (count_char LF b = 0)
       && negb (bool_decide (after = ""))
    then Some [b] else None.
Proof.
  rewrite parent_attempt. destruct b as [|c b].
  - rewrite append_nil_l. change (cs_mem CsDot "/") with true. cbv iota.
    by apply (dot_run_after (fun n => [prefix_of n (String "/" after)]) _
                (fun _ _ => eq_refl) "").
  - rewrite append_cons. unfold cs_mem.
    destruct (Ascii.eqb_spec c LF) as [->|Hc]; simpl negb; cbv iota.
    + reflexivity.
    + rewrite (dot_run (fun n => [prefix_of n (String c (b +:+ String "/" after))])
                 _ (fun _ _ => eq_refl)).
      simpl count_char. rewrite (proj2 (Ascii.eqb_neq c LF) Hc). simpl.
      rewrite (prefix_of_append b). reflexivity.
Qed.

Lemma search_no_slash (s : string) :
  count_char "/" s = 0 → search parent_re s = None.
Proof.
  induction s as [|c s IH]; intros Hno; [reflexivity|].
  rewrite search_cons, parent_attempt.
  assert (Hs : count_char "/" s = 0).
  { simpl in Hno. lia. }
  rewrite (IH Hs). destruct (cs_mem CsDot c); [|reflexivity].
  by rewrite (dot_run_after (fun n => [prefix_of n (String c s)]) _
                (fun _ _ => eq_refl) "" s 1).
Qed.

Lemma last_line_whole (b : string) : count_char LF b = 0 → last_line b = b.
Proof.
  destruct b as [|c b]; [reflexivity|]. simpl. intros H.
  destruct (Ascii.eqb_spec c LF); [lia|].
  rewrite decide_True by lia. reflexivity.
Qed.

(** [re.search] on a path with a last separator. *)
Lemma search_parent (b : string) :
  search parent_re (b +:+ String "/" after)
  = if bool_decide (after = "" ∨ last_line b = "") then None
    else Some [last_line b].
Proof.
  induction b as [|c b IH].
  - pose proof (parent_attempt_before "") as Hfront.
    rewrite append_nil_l in Hfront |- *.
    rewrite search_cons, Hfront, (search_no_slash after) by done.
    simpl. by rewrite bool_decide_eq_true_2 by auto.
  - rewrite append_cons, search_cons, <- append_cons.
    rewrite parent_attempt_before, IH.
    rewrite (bool_decide_eq_false_2 (String c b = "")) by done. simpl negb.
    rewrite andb_true_l.
    destruct (decide (after = "")) as [->|Ha].
    { rewrite andb_false_r.
      rewrite !bool_decide_eq_true_2 by auto. reflexivity. }
    rewrite (bool_decide_eq_false_2 (after = "")) by done. simpl negb.
    rewrite andb_true_r.
    destruct (decide (count_char LF (String c b) = 0)) as [Hlf|Hlf].
    + rewrite (bool_decide_eq_true_2 _ Hlf), (last_line_whole _ Hlf).
      rewrite bool_decide_eq_false_2; [reflexivity|]. intros [?|?]; done.
    + rewrite (bool_decide_eq_false_2 _ Hlf).
      simpl last_line. simpl in Hlf.
      destruct (decide (count_char LF b = 0)) as [Hb|Hb]; [|reflexivity].
      destruct (Ascii.eqb_spec c LF) as [->|Hc]; [|lia].
      by rewrite (last_line_whole _ Hb).
Qed.
End ParentSearch.

Lemma parent_folder_no_slash (path : string) :
  count_char "/" path = 0 → parent_folder (Some path) = "Root".
Proof.
  intros H. unfold parent_folder, str_extract. simpl.
  by rewrite (search_no_slash "" eq_refl path H).
Qed.

Lemma parent_folder_last_slash (before after : string) :
  count_char "/" after = 0 →
  parent_folder (Some (before +:+ String "/" after))
  = if decide (after = "" ∨ last_line before = "") then "Root"
    else last_line before.
Proof.
  intros H. unfold parent_folder, str_extract. simpl.
  rewrite (search_parent after H before), <- decide_bool_decide.
  by destruct (decide _).
Qed.

(** C7 fails on the program: the path [a/] has a separator, and its parent
    is [Root]. *)
Lemma trailing_separator_gives_root : ¬ root_iff_no_separator parent_folder.
Proof.
  intros H. destruct (H "a/") as [Himp _].
  destruct (Himp eq_refl) as [Hempty|Hcount]; discriminate.
Qed.

(** C7, amended. For every record whose folder path is present, the folder
    depth is the number of [/] in the path; it is missing when the path is.
    The parent path is [Root] when the path is missing or has no [/].
    Otherwise let [before] and [after] be the text in front of and behind the
    last [/]: the parent path is [before], taken from behind its last line
    feed when it has one, if that text and [after] are both non-empty, and
    [Root] if one of them is empty. *)
Theorem folder_depth_and_parent to_datetime now df out i r :
  load_data to_datetime now (Some df) = Returned (Some out) →
  out !! i = Some r →
  Folder_Level r = count_char "/" <$> Folder_Path r
  ∧ (Folder_Path r = None → Parent_Folder r = "Root")
  ∧ (∀ path, Folder_Path r = Some path → count_char "/" path = 0 →
       Parent_Folder r = "Root")
  ∧ (∀ before after,
       Folder_Path r = Some (before +:+ String "/" after) →
       count_char "/" after = 0 →
       Parent_Folder r = if decide (after = "" ∨ last_line before = "")
                         then "Root" else last_line before).
Proof.
  intros E Hi. destruct (load_data_inv _ _ _ _ E _ _ Hi) as (raw & _ & ->).
  simpl. fold (parent_folder (raw_Folder_Path raw)).
  split; [|split; [|split]].
  - destruct (raw_Folder_Path raw) as [path|]; simpl; [|reflexivity].
    by rewrite findall_slash.
  - by intros ->.
  - intros path -> Hno. by apply parent_folder_no_slash.
  - intros before after -> Hno. by apply parent_folder_last_slash.
Qed.

Lemma folder_depth_and_parent_witness :
  Parent_Folder (enrich (400 * ns_per_day)%Z sample_raw (Some 0%Z)) = "Projects".
Proof.
  refine (proj2 (proj2 (proj2
    (folder_depth_and_parent to_datetime_known (400 * ns_per_day)%Z
       [sample_raw] [enrich (400 * ns_per_day)%Z sample_raw (Some 0%Z)] 0
       (enrich (400 * ns_per_day)%Z sample_raw (Some 0%Z)) _ _)))
    "Projects" "a.pdf" _ _); reflexivity.
Defined.

(** ** The patterns of rule 3 *)

#[local] Arguments strip_prefix : simpl never.

Lemma drop_chars_add (a b : nat) (s : string) :
  drop_chars (a + b) s = drop_chars b (drop_chars a s).
Proof.
  revert s. induction a as [|a IH]; intros s; [reflexivity|].
  destruct s as [|c s]; simpl; [by destruct b|apply IH].
Qed.

#[local] Arguments drop_chars : simpl never.

Section Repetition.
Context {U : Unicode} {R : Type}.

(** A repetition followed by something that always succeeds keeps the
    longest run. *)
Lemma greedy_total (f : nat → R) (k : nat → string → option R) fuel :
  ∀ n s, (∀ m t, k m t = Some (f m)) →
         greedy_by decimal_len fuel n s k = Some (f (n + digit_run fuel s)).
Proof.
  induction fuel as [|fuel IH]; intros n s Hk; cbn [greedy_by digit_run].
  - by rewrite Hk, Nat.add_0_r.
  - destruct (decimal_len s) as [|j].
    + by rewrite Hk, Nat.add_0_r.
    + rewrite (IH _ _ Hk). by rewrite Nat.add_assoc.
Qed.

(** A repetition followed by something that fails in front of a character
    of the class is tried after the longest run only. *)
Lemma greedy_maximal (k : nat → string → option R) fuel :
  ∀ n s, (∀ m t, decimal_len t ≠ 0 → k m t = None) →
         greedy_by decimal_len fuel n s k
         = k (n + digit_run fuel s) (drop_chars (digit_run fuel s) s).
Proof.
  induction fuel as [|fuel IH]; intros n s Hk; cbn [greedy_by digit_run].
  - by rewrite Nat.add_0_r.
  - destruct (decimal_len s) as [|j] eqn:Hs.
    + by rewrite Nat.add_0_r.
    + rewrite (IH _ _ Hk), <- Nat.add_assoc, <- drop_chars_add.
      destruct (k _ _) eqn:Hlong; [reflexivity|].
      apply Hk. by rewrite Hs.
Qed.
End Repetition.

Section Tokens.
Context {U : Unicode}.
(** No decimal digit starts with a closing parenthesis. *)
Hypothesis paren_not_decimal : ∀ t, decimal_len (String ")" t) = 0.

Lemma exec_literal (p s : string) :
  exec (Lit p) 0 s [] (fun n _ _ => Some n) = literal_token p s.
Proof. reflexivity. Qed.

Lemma exec_version (s : string) :
  exec (Cat (Lit "_v") (Digits decimal_len)) 0 s [] (fun n _ _ => Some n)
  = version_token s.
Proof.
  unfold version_token, digits_at. simpl.
  destruct (strip_prefix "_v" s) as [t|]; [|reflexivity].
  destruct (decimal_len t) as [|j]; [reflexivity|].
  rewrite (greedy_total (fun n => n)) by done.
  rewrite decide_False by lia. first [reflexivity | f_equal; lia].
Qed.

Lemma exec_number (s : string) :
  exec (Cat (Lit "(") (Cat (Digits decimal_len) (Lit ")"))) 0 s []
       (fun n _ _ => Some n)
  = number_token s.
Proof.
  unfold number_token, digits_at. simpl.
  destruct (strip_prefix "(" s) as [t|]; [|reflexivity].
  destruct (decimal_len t) as [|j]; [reflexivity|].
  rewrite decide_False by lia.
  rewrite greedy_maximal.
  - rewrite <- drop_chars_add.
    destruct (strip_prefix ")" _); [|reflexivity].
    first [reflexivity | f_equal; simpl; lia].
  - intros m t' Ht'. destruct t' as [|c' t'']; [reflexivity|].
    unfold strip_prefix.
    destruct (Ascii.eqb_spec ")" c') as [<-|]; [|reflexivity].
    by rewrite paren_not_decimal in Ht'.
Qed.

(** At one position, [suffix_re] matches the token of the specification. *)
Lemma match_len_suffix (s : string) : match_len suffix_re s = token_at s.
Proof.
  change (match_len suffix_re s) with
    (match exec (Lit "_copy") 0 s [] (fun n _ _ => Some n) with
     | Some x => Some x
     | None =>
     match exec (Cat (Lit "_v") (Digits decimal_len)) 0 s []
                (fun n _ _ => Some n) with
     | Some x => Some x
     | None =>
     match exec (Cat (Lit "(") (Cat (Digits decimal_len) (Lit ")"))) 0 s []
                (fun n _ _ => Some n) with
     | Some x => Some x
     | None =>
     match exec (Lit "_final") 0 s [] (fun n _ _ => Some n) with
     | Some x => Some x
     | None => exec (Lit "_draft") 0 s [] (fun n _ _ => Some n)
     end end end end).
  rewrite !exec_literal, exec_version, exec_number. unfold token_at.
  destruct (literal_token "_copy" s), (version_token s), (number_token s),
    (literal_token "_final" s), (literal_token "_draft" s); reflexivity.
Qed.

Lemma sub_from_suffix (s : string) : ∀ skip,
  sub_from suffix_re skip s = remove_tokens_from skip s.
Proof.
  induction s as [|c s IH]; intros skip; simpl; [reflexivity|].
  destruct skip as [|j]; [|apply IH].
  rewrite match_len_suffix.
  destruct (token_at (String c s)) as [[|j]|]; by rewrite ?IH.
Qed.

Lemma sub_suffix (s : string) : Re.sub suffix_re s = remove_tokens s.
Proof. apply sub_from_suffix. Qed.
End Tokens.

Lemma at_eol_true (s : string) : at_eol s = true → s = "" ∨ s = String LF "".
Proof.
  destruct s as [|c [|c' s]]; simpl; try discriminate; [by left|].
  destruct (Ascii.eqb_spec c LF) as [->|]; [by right|discriminate].
Qed.

(** Case analysis on the prefixes and line ends a pattern looks at. *)
Ltac split_prefixes :=
  repeat match goal with
    | |- context [strip_prefix ?p ?t] =>
        let E := fresh "E" in
        destruct (strip_prefix p t) eqn:E;
        [apply strip_prefix_Some in E; try discriminate E; subst|]
    | |- context [at_eol ?t] =>
        let E := fresh "E" in
        destruct (at_eol t) eqn:E; [apply at_eol_true in E as [-> | ->]|]
    end.

(** [extension_re] matches a dot, one of the extensions and the end of the
    text or its final line feed, nothing else. *)
Lemma match_len_extension_Some (s : string) n :
  match_len extension_re s = Some n →
  s ∈ dotted <$> extensions
  ∨ s ∈ (fun e => dotted e +:+ String LF "") <$> extensions.
Proof.
  unfold match_len, extension_re. simpl.
  split_prefixes; intros H; try discriminate H;
    first [left; compute_done | right; compute_done].
Qed.

Lemma match_len_extension_None (s : string) :
  s ∉ dotted <$> extensions →
  s ∉ (fun e => dotted e +:+ String LF "") <$> extensions →
  match_len extension_re s = None.
Proof.
  intros H1 H2. destruct (match_len extension_re s) as [n|] eqn:E; [|reflexivity].
  destruct (match_len_extension_Some s n E); done.
Qed.

Lemma elem_of_concrete {A} (x : A) (l : list A) (P : A → Prop) :
  Forall P l → x ∈ l → P x.
Proof. intros Hall Hx. by apply (proj1 (Forall_forall P l) Hall). Qed.

Lemma sub_from_extension (s : string) :
  sub_from extension_re 0 s = strip_extension s.
Proof.
  induction s as [|c s IH]; [reflexivity|].
  simpl strip_extension.
  case_decide as H1.
  { revert H1. generalize (String c s). intros s0 H1.
    apply (elem_of_concrete s0 _ (fun s0 => sub_from extension_re 0 s0 = "") ) in H1;
      [exact H1|]. repeat constructor. }
  case_decide as H2.
  { revert H2. generalize (String c s). intros s0 H2.
    apply (elem_of_concrete s0 _
             (fun s0 => sub_from extension_re 0 s0 = String LF "")) in H2;
      [exact H2|]. repeat constructor. }
  simpl sub_from. rewrite (match_len_extension_None _ H1 H2). by rewrite IH.
Qed.

(** The pattern that rule 3 computes is the pattern of the specification,
    with the line feed case. *)
Lemma name_pattern_spec {U : Unicode} (name : string) :
  (∀ t, decimal_len (String ")" t) = 0) →
  name_pattern name = pattern name.
Proof.
  intros Hparen. unfold name_pattern, name_clean, pattern.
  rewrite sub_suffix by exact Hparen. apply sub_from_extension.
Qed.

Lemma find_ext {A} (P Q : A → bool) (l : list A) :
  (∀ x, P x = Q x) → find P l = find Q l.
Proof.
  intros HPQ. induction l as [|x l IH]; simpl; [reflexivity|].
  by rewrite HPQ, IH.
Qed.

Lemma candidates_ext (pat1 pat2 : string → string) (names : list string) :
  (∀ n, pat1 n = pat2 n) →
  ∀ earlier, candidates pat1 earlier names = candidates pat2 earlier names.
Proof.
  intros Hpat. induction names as [|name names IH]; intros earlier; simpl;
    [reflexivity|].
  unfold first_seen. rewrite !IH.
  rewrite (find_ext _ (fun m => bool_decide (pat2 m = pat2 name))); [reflexivity|].
  intros m. by rewrite !Hpat.
Qed.

(** C2 fails on the program: [$] also matches in front of a final line
    feed, so the names [a.pdf] and [a], each followed by a line feed, share a
    pattern and form a group, where the strict reading gives none. *)
Lemma line_feed_extension_is_stripped :
  ¬ rule3_as_worded (U := ascii_text) elements.
Proof.
  intros H. specialize (H line_feed_files line_feed_names [] eq_refl).
  vm_compute in H. discriminate H.
Qed.

(** C2, amended. Rule 3 looks at the File records only, in input order.
    The pattern of a name is the name lower-cased by [str.lower], without the
    tokens [_copy], [_v<digits>], [(<digits>)], [_final], [_draft] - a digit
    being any decimal digit of Unicode - and then without one extension among
    pdf, doc, docx, xls, xlsx, ppt, pptx that ends the text or is followed
    only by a final line feed. Each pattern is mapped to the first name seen
    with it; a later name with a seen pattern adds the first name and itself
    to the candidates. Without candidates no group is added; otherwise one
    group is added, with [count] the size of the set of candidate names,
    [items] at most 10 elements of that set, and confidence Medium. Every
    File record has a text as its name, and no decimal digit starts with a
    closing parenthesis. *)
Theorem potential_duplicates_rule {U : Unicode}
    set_to_list df names suggestions :
  (∀ t, decimal_len (String ")" t) = 0) →
  Name <$> filter is_file df = Some <$> names →
  (∀ name, name_pattern name = pattern name)
  ∧ rule3 set_to_list df suggestions =
    Returned (suggestions ++ potential_duplicates pattern set_to_list names)
  ∧ (candidates pattern [] names = [] →
     rule3 set_to_list df suggestions = Returned suggestions)
  ∧ (candidates pattern [] names ≠ [] →
     ∃ g, rule3 set_to_list df suggestions = Returned (suggestions ++ [g])
          ∧ category g = "Potential Duplicates"
          ∧ count g = size (list_to_set (candidates pattern [] names) : gset string)
          ∧ items g = Some <$> take 10
                        (set_to_list (list_to_set (candidates pattern [] names)))
          ∧ confidence g = Medium).
Proof.
  intros Hparen Hnames.
  assert (Hpat : ∀ name, name_pattern name = pattern name).
  { intros name. by apply name_pattern_spec. }
  assert (Hrule : rule3 set_to_list df suggestions =
            Returned (suggestions ++ potential_duplicates pattern set_to_list names)).
  { rewrite rule3_scan.
    destruct (scan_rows_candidates names (filter is_file df) (Scan ∅ []) []
                Hnames tracks_nil) as (st & -> & Hc).
    simpl in Hc. simpl. unfold potential_duplicates.
    by rewrite Hc, (candidates_ext _ _ names Hpat). }
  split; [exact Hpat|]. split; [exact Hrule|].
  rewrite Hrule. unfold potential_duplicates. split.
  - intros ->. simpl. by rewrite app_nil_r.
  - intros Hne. destruct (candidates pattern [] names) as [|c0 cs] eqn:Hc; [done|].
    simpl. eexists. split; [reflexivity|]. simpl. auto.
Qed.

Lemma potential_duplicates_rule_witness :
  pattern (U := ascii_text) "Report_FINAL.pdf" = "report"
  ∧ pattern (U := ascii_text) "report(2).PDF" = "report"
  ∧ ∃ g, rule3 (U := ascii_text) elements report_files [] = Returned [g]
         ∧ category g = "Potential Duplicates"
         ∧ count g = 2.
Proof.
  destruct (potential_duplicates_rule (U := ascii_text) elements report_files
              report_names [] (fun _ => eq_refl) eq_refl)
    as (Hpat & _ & _ & Hgroup).
  split; [by rewrite <- Hpat|]. split; [by rewrite <- Hpat|].
  destruct Hgroup as (g & E & Hcat & Hcount & _); [by vm_compute|].
  exists g. split; [exact E|]. split; [exact Hcat|].
  rewrite Hcount. by vm_compute.
Defined.

(** * Further properties of the page *)

(** ** Colours *)

Lemma categorize_age_label days :
  categorize_age days ∈
    ["Recent (0-30 days)"; "Moderately Old (1-3 months)"; "Old (3-12 months)";
     "Very Old (1+ years)"; "Unknown"].
Proof.
  destruct (categorize_age_bucket days) as ([] & -> & _); simpl; set_solver.
Qed.

(** X1. Two day counts are shown in the same colour exactly when
    [categorize_age] puts them in the same bucket: the five labels have five
    different colours. *)
Theorem color_separates_buckets days1 days2 :
  get_color_for_age (categorize_age days1) = get_color_for_age (categorize_age days2)
  ↔ categorize_age days1 = categorize_age days2.
Proof.
  split; [|by intros ->].
  destruct (categorize_age_bucket days1) as ([] & -> & _);
    destruct (categorize_age_bucket days2) as ([] & -> & _);
    intros H; first [reflexivity | vm_compute in H; discriminate H].
Qed.

(** X2. A text that is not a key of the colour table gets the grey of Unknown,
    with no error; the four dated labels never get it. *)
Theorem color_default_is_grey (age_category : string) :
  get_color_for_age age_category = "#95A5A6"
  ↔ age_category ∉ ["Recent (0-30 days)"; "Moderately Old (1-3 months)";
                    "Old (3-12 months)"; "Very Old (1+ years)"].
Proof.
  unfold get_color_for_age.
  destruct (colors !! age_category) as [c|] eqn:E.
  - apply elem_of_list_to_map_2 in E.
    repeat (apply elem_of_cons in E as [E|E]; [injection E as -> ->|]);
      try (by apply elem_of_nil in E); simpl;
      split; intros H; first [discriminate H | exfalso; apply H; set_solver | set_solver].
  - simpl. split; [intros _|done].
    unfold colors in E. apply not_elem_of_list_to_map in E. set_solver.
Qed.

(** ** Sidebar filters *)

Lemma filter_all {A} (P : A → Prop) `{!∀ x, Decision (P x)} (l : list A) :
  Forall P l → filter P l = l.
Proof.
  induction 1 as [|x l Hx _ IH]; [reflexivity|].
  by rewrite filter_cons, decide_True, IH.
Qed.

Lemma filter_none {A} (P : A → Prop) `{!∀ x, Decision (P x)} (l : list A) :
  Forall (fun x => ¬ P x) l → filter P l = [].
Proof.
  induction 1 as [|x l Hx _ IH]; [reflexivity|].
  by rewrite filter_cons, decide_False, IH.
Qed.

Lemma filter_ext_in {A} (P Q : A → Prop) `{!∀ x, Decision (P x)}
    `{!∀ x, Decision (Q x)} (l : list A) :
  (∀ x, x ∈ l → P x ↔ Q x) → filter P l = filter Q l.
Proof.
  induction l as [|x l IH]; intros Hpq; [reflexivity|].
  rewrite !filter_cons, IH by (intros y Hy; apply Hpq; by right).
  destruct (decide (P x)) as [Hp|Hp], (decide (Q x)) as [Hq|Hq]; try reflexivity;
    exfalso; pose proof (Hpq x (list_elem_of_here _ _)); tauto.
Qed.

Lemma elem_of_unique_from (x : string) (col : list string) : ∀ seen,
  x ∈ unique_from seen col ↔ x ∈ col ∧ x ∉ seen.
Proof.
  induction col as [|y col IH]; intros seen; simpl.
  - set_solver.
  - destruct (decide (y ∈ seen)) as [Hy|Hy].
    + rewrite IH. set_solver.
    + rewrite !elem_of_cons, IH, not_elem_of_cons.
      destruct (decide (x = y)) as [->|]; naive_solver.
Qed.

Lemma elem_of_unique (x : string) (col : list string) : x ∈ unique col ↔ x ∈ col.
Proof. unfold unique. rewrite elem_of_unique_from. set_solver. Qed.

Lemma foldr_min_le (d : Z) (ds : list Z) x :
  x ∈ d :: ds → (foldr Z.min d ds ≤ x)%Z.
Proof.
  induction ds as [|y ds IH]; simpl.
  - intros ->%list_elem_of_singleton. lia.
  - intros [->|[->|Hx]%elem_of_cons]%elem_of_cons.
    + pose proof (IH (list_elem_of_here _ _)). lia.
    + lia.
    + pose proof (IH (list_elem_of_further _ _ _ Hx)). lia.
Qed.

Lemma foldr_max_ge (d : Z) (ds : list Z) x :
  x ∈ d :: ds → (x ≤ foldr Z.max d ds)%Z.
Proof.
  induction ds as [|y ds IH]; simpl.
  - intros ->%list_elem_of_singleton. lia.
  - intros [->|[->|Hx]%elem_of_cons]%elem_of_cons.
    + pose proof (IH (list_elem_of_here _ _)). lia.
    + lia.
    + pose proof (IH (list_elem_of_further _ _ _ Hx)). lia.
Qed.

Lemma column_dates_elem (df : list row) r t :
  r ∈ df → Last_Updated r = Some t → date_of t ∈ column_dates df.
Proof.
  intros Hr Ht. unfold column_dates. apply list_elem_of_omap.
  exists r. split; [done|]. by rewrite Ht.
Qed.

Lemma column_dates_nil (df : list row) :
  column_dates df = [] ↔ Forall (fun r => Last_Updated r = None) df.
Proof.
  unfold column_dates. induction df as [|r df IH]; simpl.
  - split; [constructor|reflexivity].
  - destruct (Last_Updated r) as [t|] eqn:Ht; simpl.
    + split; [discriminate|]. intros [? _]%Forall_cons. congruence.
    + rewrite IH. split; [by constructor|]. by intros [_ ?]%Forall_cons.
Qed.

Section FilterFacts.
Variable str_contains : string → string → bool.

(** The filters only remove rows: what is shown is a part of the table, in
    the order of the table. *)
Lemma apply_filters_sublist df sb :
  sublist (apply_filters str_contains df sb) df.
Proof.
  unfold apply_filters.
  etransitivity; [apply sublist_filter|].
  assert (Hdate : ∀ l, sublist
            match date_range df sb with
            | Some [lo; hi] => filter (date_between lo hi) l
            | _ => l
            end l).
  { intros l. destruct (date_range df sb) as [[|lo [|hi [|? ?]]]|];
      first [reflexivity | apply sublist_filter]. }
  etransitivity; [apply Hdate|].
  etransitivity;
    [destruct (decide (search_term sb = "")); [reflexivity|apply sublist_filter]|].
  repeat case_decide; first [reflexivity | apply sublist_filter].
Qed.
End FilterFacts.

(** X3. With the sidebar untouched, the page shows the whole table when no
    [Last Updated] could be parsed; as soon as one row has a date, the default
    date range from the earliest to the latest date hides exactly the rows
    without a date. *)
Theorem default_filters_hide_undated str_contains df :
  apply_filters str_contains df (default_sidebar df)
  = if decide (Forall (fun r => Last_Updated r = None) df) then df
    else filter (fun r => is_Some (Last_Updated r)) df.
Proof.
  unfold apply_filters, date_range. simpl.
  assert (Hage : ∀ l, sublist l df →
            filter (fun r => Age_Category r ∈ unique (Age_Category <$> df)) l = l).
  { intros l Hl. apply filter_all, Forall_forall. intros r Hr.
    apply elem_of_unique, list_elem_of_fmap_2. by eapply elem_of_sublist. }
  destruct (decide (Forall _ df)) as [Hnat|Hsome].
  - by apply Hage.
  - unfold min_date, max_date.
    destruct (column_dates df) as [|d ds] eqn:Hd.
    { by apply column_dates_nil in Hd. }
    rewrite Hage by apply sublist_filter.
    apply filter_ext_in. intros r Hr. unfold date_between.
    destruct (Last_Updated r) as [t|] eqn:Ht.
    + pose proof (column_dates_elem df r t Hr Ht) as Hin. rewrite Hd in Hin.
      split; [by eexists|]. intros _.
      split; [by apply foldr_min_le|by apply foldr_max_ge].
    + split; [done|]. by intros [? ?].
Qed.

Section FilteredSuggestions.
Context {U : Unicode}.
Variable str_contains : string → string → bool.
Variable set_to_list : gset string → list string.

Lemma Forall_sublist {A} (P : A → Prop) (l1 l2 : list A) :
  sublist l1 l2 → Forall P l2 → Forall P l1.
Proof.
  intros Hsub Hall. apply Forall_forall. intros x Hx.
  apply (proj1 (Forall_forall P l2) Hall). by eapply elem_of_sublist.
Qed.

Lemma Forall_filter_self {A} (P : A → Prop) `{!∀ x, Decision (P x)} (l : list A) :
  Forall P (filter P l).
Proof. apply Forall_forall. intros x Hx. by apply list_elem_of_filter in Hx as [? _]. Qed.


Lemma apply_filters_files_only df sb :
  type_filter sb = "Files Only" →
  Forall is_file (apply_filters str_contains df sb).
Proof.
  intros Ht. unfold apply_filters. rewrite Ht.
  destruct (decide ("Files Only" = "Files Only")) as [_|E]; [|done].
  eapply Forall_sublist; [|apply (Forall_filter_self is_file df)].
  etransitivity; [apply sublist_filter|].
  etransitivity;
    [destruct (date_range df sb) as [[|lo [|hi [|? ?]]]|];
       first [reflexivity | apply sublist_filter]|].
  destruct (decide (search_term sb = "")); [reflexivity|apply sublist_filter].
Qed.


(** X5. With the filter set to Files Only the two folder rules give nothing. *)
Theorem files_only_suggestions df sb gs :
  type_filter sb = "Files Only" →
  ai_archive_suggestions set_to_list (apply_filters str_contains df sb)
    = Returned gs →
  ∀ g, g ∈ gs → category g ∈ ["Very Old Files"; "Potential Duplicates"].
Proof.
  intros Ht. pose proof (apply_filters_files_only df sb Ht) as Hall.
  set (fdf := apply_filters str_contains df sb) in *.
  assert (Hnoempty : filter empty_folder fdf = []).
  { apply filter_none. eapply Forall_impl; [exact Hall|].
    unfold empty_folder, is_file, is_folder. intros r H1 [H2 _]. congruence. }
  assert (Hnoold : filter old_folder fdf = []).
  { apply filter_none. eapply Forall_impl; [exact Hall|].
    unfold old_folder, is_file, is_folder. intros r H1 [H2 _]. congruence. }
  intros (st & _ & ->)%engine_inv g.
  unfold rule2, rule4. rewrite Hnoempty, Hnoold. simpl.
  rewrite app_nil_r, elem_of_app.
  intros [->%in_rule1|[_ ->]%in_duplicates_group]; simpl; set_solver.
Qed.
End FilteredSuggestions.


Lemma files_only_suggestions_witness :
  category plan_group ∈ ["Very Old Files"; "Potential Duplicates"].
Proof.
  apply (files_only_suggestions (U := ascii_text) contains_plain elements
           (plan_files ++ [folder_named "Reports" 0]) files_only [plan_group]).
  - reflexivity.
  - vm_compute. reflexivity.
  - apply list_elem_of_here.
Defined.

(** ** Summary metrics *)

(** X7. The Files and Folders metrics never add up to more than Total Items, and
    they add up to it exactly when every shown row has the type File or
    Folder. *)
Theorem metrics_add_up (filtered_df : list row) :
  let m := summary_metrics filtered_df in
  (files_metric m + folders_metric m ≤ total_items m)%nat
  ∧ (files_metric m + folders_metric m = total_items m
     ↔ Forall (fun r => is_file r ∨ is_folder r) filtered_df).
Proof.
  simpl. induction filtered_df as [|r df [IHle IHeq]]; simpl.
  - split; [lia|]. split; [constructor|reflexivity].
  - rewrite !filter_cons, Forall_cons.
    destruct (decide (is_file r)) as [Hf|Hf], (decide (is_folder r)) as [Hd|Hd];
      simpl.
    + unfold is_file, is_folder in *. congruence.
    + split; [lia|]. rewrite <- IHeq. split; [intros ?; split; [auto|lia] | intros [_ ?]; lia].
    + split; [lia|]. rewrite <- IHeq. split; [intros ?; split; [auto|lia] | intros [_ ?]; lia].
    + split; [lia|]. split; [lia|]. intros [[?|?] _]; done.
Qed.

(** ** The suggestions tab *)

Lemma more_of_capped (c : nat) :
  (if decide (5 < 10 `min` c) then Some (10 `min` c - 5) else None)
  = (if decide (5 < c) then Some (c `min` 10 - 5) else None).
Proof. repeat case_decide; first [lia | f_equal; lia | reflexivity]. Qed.

(** X8. What the tab shows of a group the engine returns. The bullet lines
    are the first names of the group, five at most: there are min(count, 5)
    of them. The line with the number of further items appears exactly when
    count is above 5 for Very Old Files, Potential Duplicates and Empty
    Folders, and never for Large Old Folders. Its number is count - 5 for
    Empty Folders; for Very Old Files and Potential Duplicates it is
    min(count, 10) - 5, which is the number of matches not shown up to a
    count of 10 and stays at 5 above. The list made of a set holds each of
    its elements once. *)
Theorem shown_items_of_group {U : Unicode} set_to_list df gs i g :
  (∀ X, set_to_list X ≡ₚ elements X) →
  ai_archive_suggestions set_to_list df = Returned gs →
  gs !! i = Some g →
  length (sample_items g) = count g `min` 5
  ∧ (category g = "Very Old Files" ∨ category g = "Potential Duplicates" →
       more_items g
       = if decide (5 < count g) then Some (count g `min` 10 - 5) else None)
  ∧ (category g = "Empty Folders" →
       more_items g = if decide (5 < count g) then Some (count g - 5) else None)
  ∧ (category g = "Large Old Folders" → more_items g = None).
Proof.
  intros Hperm (st & _ & ->)%engine_inv Hi.
  assert (Hsize : ∀ X, length (set_to_list X) = size X).
  { intros X. by rewrite (Permutation_length (Hperm X)). }
  unfold sample_items, more_items. rewrite length_take.
  apply lookup_groups in Hi
    as [->%in_rule1|[->%in_rule2|[[_ ->]%in_duplicates_group| ->%in_rule4]]];
    cbn [items category count].
  - rewrite length_take, length_fmap.
    split; [lia|]. split; [intros _; apply more_of_capped|].
    split; discriminate.
  - rewrite length_fmap.
    split; [lia|]. split; [intros [?|?]; discriminate|].
    split; [done|discriminate].
  - rewrite length_fmap, length_take, Hsize.
    split; [lia|]. split; [intros _; apply more_of_capped|].
    split; discriminate.
  - rewrite length_take, length_fmap.
    split; [lia|]. split; [intros [?|?]; discriminate|].
    split; [discriminate|]. intros _. apply decide_False. lia.
Qed.

Lemma shown_items_of_group_witness :
  length (sample_items plan_group) = count plan_group `min` 5.
Proof.
  refine (proj1 (shown_items_of_group (U := ascii_text) elements plan_files
                   [plan_group] 0 plan_group _ _ _)).
  - intros X. reflexivity.
  - vm_compute. reflexivity.
  - reflexivity.
Defined.

(** ** The rules on an enriched table *)

Lemma very_old_label days :
  categorize_age days = "Very Old (1+ years)" ↔ ∃ d, days = Some d ∧ (365 < d)%Z.
Proof.
  destruct days as [d|]; simpl.
  - destruct (Z.leb_spec d 30), (Z.leb_spec d 90), (Z.leb_spec d 365);
      try lia; (split; [intros Hl | intros (d' & [= <-] & Hd)]);
      first [discriminate Hl | lia | eauto].
  - split; [discriminate|]. by intros (d & [=] & _).
Qed.

Lemma old_label days :
  categorize_age days ∈ ["Old (3-12 months)"; "Very Old (1+ years)"]
  ↔ ∃ d, days = Some d ∧ (90 < d)%Z.
Proof.
  rewrite !elem_of_cons, elem_of_nil.
  destruct days as [d|]; simpl.
  - destruct (Z.leb_spec d 30), (Z.leb_spec d 90), (Z.leb_spec d 365);
      try lia; (split; [intros Hl | intros (d' & [= <-] & Hd)]);
      first [ lia | by eauto
            | destruct Hl as [Hl|[Hl|[]]]; first [discriminate Hl | eauto with lia] ].
  - split; [|by intros (d & [=] & _)].
    intros [Hl|[Hl|[]]]; discriminate Hl.
Qed.

(** X9. On the table [load_data] returns, a File is a Very Old File exactly when
    it was updated more than 365 whole days ago, and a Folder is a Large Old
    Folder exactly when it was updated more than 90 whole days ago and holds
    more than 10 items; a record whose [Last Updated] did not parse is in
    neither. *)
Theorem age_rules_follow_days to_datetime now df out i r :
  load_data to_datetime now (Some df) = Returned (Some out) →
  out !! i = Some r →
  (very_old_file r ↔
     is_file r ∧ ∃ d, Days_Since_Update r = Some d ∧ (365 < d)%Z)
  ∧ (old_folder r ↔
       is_folder r ∧ (∃ d, Days_Since_Update r = Some d ∧ (90 < d)%Z)
       ∧ cell_gt (Content_Count r) 10)
  ∧ (Last_Updated r = None → ¬ very_old_file r ∧ ¬ old_folder r).
Proof.
  intros E Hi. destruct (load_data_inv _ _ _ _ E _ _ Hi) as (raw & _ & ->).
  unfold very_old_file, old_folder.
  cbn [Age_Category Days_Since_Update Last_Updated Content_Count enrich].
  rewrite very_old_label, old_label.
  split; [tauto|]. split; [tauto|].
  intros ->. simpl. split.
  - by intros [(d & [=] & _) _].
  - by intros (_ & (d & [=] & _) & _).
Qed.

Lemma age_rules_follow_days_witness :
  very_old_file (enrich (400 * ns_per_day)%Z sample_raw (Some 0%Z))
  ↔ is_file (enrich (400 * ns_per_day)%Z sample_raw (Some 0%Z))
    ∧ ∃ d, Days_Since_Update (enrich (400 * ns_per_day)%Z sample_raw (Some 0%Z))
           = Some d ∧ (365 < d)%Z.
Proof.
  refine (proj1
    (age_rules_follow_days to_datetime_known (400 * ns_per_day)%Z [sample_raw]
       [enrich (400 * ns_per_day)%Z sample_raw (Some 0%Z)] 0
       (enrich (400 * ns_per_day)%Z sample_raw (Some 0%Z)) _ _)); reflexivity.
Defined.

(** ** Which names rule 3 collects *)

Lemma in_candidates pat x names : ∀ earlier,
  x ∈ candidates pat earlier names ↔
  ∃ j b first,
    names !! j = Some b
    ∧ first_seen pat (earlier ++ take j names) b = Some first
    ∧ (x = first ∨ x = b).
Proof.
  induction names as [|name names IH]; intros earlier; simpl.
  - split; [by intros ?%elem_of_nil|]. by intros (j & b & first & Hj & _).
  - assert (Hlater :
      x ∈ candidates pat (earlier ++ [name]) names ↔
      ∃ j b first,
        (name :: names) !! S j = Some b
        ∧ first_seen pat (earlier ++ take (S j) (name :: names)) b = Some first
        ∧ (x = first ∨ x = b)).
    { rewrite IH. simpl. by setoid_rewrite <- app_assoc. }
    destruct (first_seen pat earlier name) as [first|] eqn:Hfirst.
    + rewrite !elem_of_cons, Hlater. split.
      * intros [->|[->|(j & b & f & H)]].
        -- exists 0, name, first. simpl. rewrite app_nil_r. auto.
        -- exists 0, name, first. simpl. rewrite app_nil_r. auto.
        -- by exists (S j), b, f.
      * intros ([|j] & b & f & Hj & Hf & Hx).
        -- simpl in Hj, Hf. injection Hj as <-. rewrite app_nil_r in Hf.
           rewrite Hfirst in Hf. injection Hf as <-. tauto.
        -- right; right. by exists j, b, f.
    + rewrite Hlater. split.
      * intros (j & b & f & H). by exists (S j), b, f.
      * intros ([|j] & b & f & Hj & Hf & Hx).
        -- simpl in Hj, Hf. injection Hj as <-. rewrite app_nil_r in Hf.
           rewrite Hfirst in Hf. discriminate Hf.
        -- by exists j, b, f.
Qed.

Lemma find_is_Some {A} (P : A → bool) (l : list A) x :
  x ∈ l → P x = true → is_Some (find P l).
Proof.
  intros Hx HP. destruct (find P l) eqn:E; [by eexists|].
  rewrite find_None_elem in E. rewrite (E x Hx) in HP. discriminate.
Qed.

(** The names rule 3 collects are the names of the files whose pattern is
    the pattern of at least two files. *)
Lemma candidates_shared pat x names :
  x ∈ candidates pat [] names ↔
  x ∈ names ∧ (2 ≤ length (filter (fun m => pat m = pat x) names))%nat.
Proof.
  rewrite in_candidates. simpl. split.
  - intros (j & b & first & Hj & Hf & Hx).
    apply find_Some_elem in Hf as [Hin Hp]. apply bool_decide_eq_true_1 in Hp.
    rewrite <- (take_drop_middle names j b Hj).
    assert (Hpx : pat first = pat x ∧ pat b = pat x)
      by (destruct Hx as [->| ->]; split; congruence).
    destruct Hpx as [Hpf Hpb]. split.
    + rewrite elem_of_app, elem_of_cons. destruct Hx as [->| ->]; auto.
    + rewrite filter_app, length_app, filter_cons, decide_True by done. simpl.
      assert (0 < length (filter (fun m => pat m = pat x) (take j names))).
      { apply filter_nonempty. eauto. }
      lia.
  - intros [Hx Hlen].
    apply list_elem_of_split in Hx as (l1 & l2 & ->).
    rewrite filter_app, length_app, filter_cons, decide_True in Hlen by done.
    simpl in Hlen.
    destruct (find (fun m => bool_decide (pat m = pat x)) l1) as [first|] eqn:Hf.
    + exists (length l1), x, first.
      rewrite list_lookup_middle by done. rewrite take_app_length.
      unfold first_seen. auto.
    + assert (Hl1 : filter (fun m => pat m = pat x) l1 = []).
      { apply filter_none, Forall_forall. intros m Hm.
        rewrite find_None_elem in Hf. specialize (Hf m Hm).
        by apply bool_decide_eq_false_1 in Hf. }
      rewrite Hl1 in Hlen. simpl in Hlen.
      assert (Hl2 : 0 < length (filter (fun m => pat m = pat x) l2)) by lia.
      apply filter_nonempty in Hl2 as (m & Hm & Hpm).
      apply list_elem_of_split in Hm as (l3 & l4 & ->).
      exists (length (l1 ++ x :: l3)), m, x.
      replace (l1 ++ x :: l3 ++ m :: l4) with ((l1 ++ x :: l3) ++ m :: l4)
        by (by rewrite <- app_assoc).
      rewrite list_lookup_middle by done. rewrite take_app_length.
      split; [done|]. split; [|auto].
      unfold first_seen. rewrite find_app.
      rewrite (find_ext _ (fun m0 => bool_decide (pat m0 = pat x))), Hf
        by (intros m0; by rewrite Hpm).
      simpl. by rewrite bool_decide_eq_true_2.
Qed.

Lemma duplicates_group_ext set_to_list (c1 c2 : list string) :
  (∀ x, x ∈ c1 ↔ x ∈ c2) →
  duplicates_group set_to_list c1 = duplicates_group set_to_list c2.
Proof.
  intros Hc.
  assert (Hset : (list_to_set c1 : gset string) = list_to_set c2).
  { apply set_eq. intros x. by rewrite !elem_of_list_to_set. }
  destruct c1 as [|a c1], c2 as [|b c2].
  - reflexivity.
  - exfalso. eapply elem_of_nil, Hc. left.
  - exfalso. eapply elem_of_nil, Hc. left.
  - unfold duplicates_group. by rewrite Hset.
Qed.

(** X11. The Potential Duplicates group is made of the names of the File records
    whose pattern occurs in at least two File records: each such name once,
    however many records carry it. *)
Theorem duplicates_share_a_pattern {U : Unicode}
    set_to_list df names suggestions :
  Name <$> filter is_file df = Some <$> names →
  rule3 set_to_list df suggestions =
  Returned
    (suggestions ++
     duplicates_group set_to_list
       (filter (fun n =>
                  (2 ≤ length (filter (fun m => name_pattern m = name_pattern n)
                                     names))%nat)
               names)).
Proof.
  intros Hnames. rewrite rule3_scan.
  destruct (scan_rows_candidates names (filter is_file df) (Scan ∅ []) []
              Hnames tracks_nil) as (st & -> & Hc).
  simpl in Hc. simpl. rewrite Hc. do 2 f_equal.
  apply duplicates_group_ext. intros x.
  rewrite candidates_shared, list_elem_of_filter. tauto.
Qed.

Lemma duplicates_share_a_pattern_witness :
  rule3 (U := ascii_text) elements
    [file_named "a.pdf"; file_named "a.pdf"] []
  = Returned [Suggestion "Potential Duplicates" 1
                "Files with similar names that might be duplicates" Medium
                [Some "a.pdf"]].
Proof.
  refine (eq_trans
    (duplicates_share_a_pattern (U := ascii_text) elements
       [file_named "a.pdf"; file_named "a.pdf"] ["a.pdf"; "a.pdf"] [] _) _).
  - reflexivity.
  - vm_compute. reflexivity.
Defined.

(** ** The folder tree *)

Section TreeFacts.
Import Tree.

Lemma split_on_not_nil c (s : string) : split_on c s ≠ [].
Proof.
  induction s as [|a s IH]; simpl; [done|].
  destruct (Ascii.eqb a c); [done|]. by destruct (split_on c s).
Qed.

(** The number of segments is one more than the number of separators. *)
Lemma split_on_length c (s : string) :
  length (split_on c s) = S (count_char c s).
Proof.
  induction s as [|a s IH]; simpl; [reflexivity|].
  destruct (Ascii.eqb a c); simpl; [by rewrite IH|].
  destruct (split_on c s); simpl in *; [discriminate|done].
Qed.

Lemma init_last_snoc (i : list string) (la : string) :
  init_last (i ++ [la]) = Some (i, la).
Proof. induction i as [|x i IH]; simpl; [reflexivity|by rewrite IH]. Qed.

Lemma init_last_Some (l : list string) :
  l ≠ [] → ∃ i la, l = i ++ [la] ∧ init_last l = Some (i, la).
Proof.
  induction l as [|la i _] using rev_ind; [done|]. intros _.
  exists i, la. split; [reflexivity|apply init_last_snoc].
Qed.

Lemma dict_get_alter f k k' (d : list (string * node)) :
  dict_get k (dict_alter f k' d)
  = if decide (k = k') then f <$> dict_get k d else dict_get k d.
Proof.
  induction d as [|[k0 v] d IH]; simpl; [by case_decide|].
  destruct (decide (k0 = k')) as [->|Hk0]; simpl.
  - destruct (decide (k' = k)) as [->|Hk].
    + by rewrite decide_True.
    + by rewrite decide_False.
  - destruct (decide (k0 = k)) as [->|Hk].
    + by rewrite decide_False.
    + exact IH.
Qed.

Lemma dict_get_snoc k k' v (d : list (string * node)) :
  dict_get k (d ++ [(k', v)])
  = match dict_get k d with
    | Some n => Some n
    | None => if decide (k' = k) then Some v else None
    end.
Proof.
  induction d as [|[k0 v0] d IH]; simpl; [reflexivity|].
  destruct (decide (k0 = k)); [reflexivity|exact IH].
Qed.

Lemma get_node_cons k (q : list string) (d : list (string * node)) :
  q ≠ [] →
  get_node (k :: q) d
  = match dict_get k d with
    | Some n => get_node q (folders n)
    | None => None
    end.
Proof. by destruct q. Qed.

Lemma payload_at_nil (d : list (string * node)) : payload_at [] d = None.
Proof. reflexivity. Qed.

Lemma payload_at_single k (d : list (string * node)) :
  payload_at [k] d = payload <$> dict_get k d.
Proof. reflexivity. Qed.

Lemma payload_at_cons k (q : list string) (d : list (string * node)) :
  q ≠ [] →
  payload_at (k :: q) d
  = match dict_get k d with
    | Some n => payload_at q (folders n)
    | None => None
    end.
Proof.
  intros Hq. unfold payload_at. rewrite get_node_cons by done.
  by destruct (dict_get k d).
Qed.

Lemma payload_at_empty (q : list string) : payload_at q [] = None.
Proof. by destruct q as [|k [|k2 q]]. Qed.

(** The nodes a path needs are created empty; what was there stays. *)
Lemma payload_ensure (parts : list string) : ∀ (d : list (string * node)) q,
  payload_at q (ensure parts d)
  = match payload_at q d with
    | Some x => Some x
    | None =>
        if decide (q ≠ [] ∧ q `prefix_of` parts) then Some (None, []) else None
    end.
Proof.
  induction parts as [|p parts IH]; intros d q.
  - simpl. destruct (payload_at q d) eqn:E; [reflexivity|].
    rewrite decide_False; [reflexivity|].
    intros [Hq Hpre]. by apply prefix_nil_inv in Hpre.
  - cbn [ensure].
    set (d1 := match dict_get p d with
               | Some _ => d
               | None => d ++ [(p, Node [] [] None)]
               end).
    assert (Hd1 : ∀ k, dict_get k d1
              = match dict_get k d with
                | Some n => Some n
                | None => if decide (p = k) then Some (Node [] [] None) else None
                end).
    { intros k. unfold d1. destruct (dict_get p d) as [n|] eqn:Ep.
      - destruct (dict_get k d) eqn:Ek; [reflexivity|].
        rewrite decide_False; [reflexivity|]. intros ->. congruence.
      - apply dict_get_snoc. }
    destruct q as [|k q]; [by rewrite !payload_at_nil, decide_False by tauto|].
    destruct q as [|k2 q].
    + rewrite !payload_at_single, dict_get_alter, Hd1.
      destruct (decide (k = p)) as [->|Hk].
      * destruct (dict_get p d) as [n|]; simpl; [reflexivity|].
        rewrite decide_True by done. simpl.
        rewrite decide_True; [reflexivity|].
        split; [done|]. by apply prefix_cons, prefix_nil.
      * destruct (dict_get k d) as [n|]; simpl; [reflexivity|].
        rewrite decide_False by done. simpl.
        rewrite decide_False; [reflexivity|].
        intros [_ Hpre]. by apply prefix_cons_inv_1 in Hpre.
    + rewrite !payload_at_cons, dict_get_alter, Hd1 by done.
      destruct (decide (k = p)) as [->|Hk].
      * destruct (dict_get p d) as [n|]; simpl.
        -- rewrite IH. destruct (payload_at (k2 :: q) (folders n)); [reflexivity|].
           apply decide_ext. split.
           ++ intros [_ Hpre]. split; [done|]. by apply prefix_cons.
           ++ intros [_ Hpre]. split; [done|]. by apply prefix_cons_inv_2 in Hpre.
        -- rewrite decide_True by done. simpl. rewrite IH, payload_at_empty.
           apply decide_ext. split.
           ++ intros [_ Hpre]. split; [done|]. by apply prefix_cons.
           ++ intros [_ Hpre]. split; [done|]. by apply prefix_cons_inv_2 in Hpre.
      * destruct (dict_get k d) as [n|]; simpl.
        -- destruct (payload_at (k2 :: q) (folders n)); [reflexivity|].
           rewrite decide_False; [reflexivity|].
           intros [_ Hpre]. by apply prefix_cons_inv_1 in Hpre.
        -- rewrite decide_False by done. simpl.
           rewrite decide_False; [reflexivity|].
           intros [_ Hpre]. by apply prefix_cons_inv_1 in Hpre.
Qed.

(** Changing one node changes what that node holds, and nothing else. *)
Lemma payload_update_at (f : node → node)
    (φ : option row * list row → option row * list row) :
  (∀ n, folders (f n) = folders n) →
  (∀ n, payload (f n) = φ (payload n)) →
  ∀ init la (d : list (string * node)),
    match get_node (init ++ [la]) d with
    | Some _ =>
        ∃ d', update_at init la f d = Ok d'
              ∧ ∀ q, payload_at q d'
                     = if decide (q = init ++ [la]) then φ <$> payload_at q d
                       else payload_at q d
    | None => update_at init la f d = Fail KeyError
    end.
Proof.
  intros Hfold Hpay. induction init as [|part init IH]; intros la d.
  - simpl. destruct (dict_get la d) as [n|] eqn:En; [|reflexivity].
    eexists. split; [reflexivity|]. intros q.
    destruct q as [|k [|k2 q]].
    + by rewrite decide_False.
    + rewrite !payload_at_single, dict_get_alter.
      destruct (decide (k = la)) as [->|Hk].
      * rewrite decide_True by done. rewrite En. simpl. by rewrite Hpay.
      * rewrite decide_False by congruence. reflexivity.
    + rewrite !payload_at_cons, dict_get_alter by done.
      rewrite (decide_False (P := _ = [la])) by discriminate.
      destruct (decide (k = la)) as [->|Hk]; [|reflexivity].
      rewrite En. simpl. by rewrite Hfold.
  - rewrite <- app_comm_cons, get_node_cons by (by destruct init).
    cbn [update_at].
    destruct (dict_get part d) as [n|] eqn:En; [|reflexivity].
    specialize (IH la (folders n)).
    destruct (get_node (init ++ [la]) (folders n)) as [m|] eqn:Em.
    + destruct IH as (below & -> & Hbelow). eexists. split; [reflexivity|].
      intros q. destruct q as [|k [|k2 q]].
      * by rewrite decide_False.
      * rewrite !payload_at_single, dict_get_alter.
        rewrite (decide_False (P := [k] = _)) by (destruct init; discriminate).
        destruct (decide (k = part)) as [->|Hk]; [|reflexivity].
        by rewrite En.
      * rewrite !payload_at_cons, dict_get_alter by done.
        destruct (decide (k = part)) as [->|Hk].
        -- rewrite En. simpl. rewrite Hbelow.
           apply decide_ext. split; [by intros ->|by intros [= ->]].
        -- rewrite decide_False by congruence. reflexivity.
    + by rewrite IH.
Qed.

Lemma descend_ok (parts : list string) : ∀ (d : list (string * node)),
  is_Some (get_node parts d) → ∃ x, descend parts d = Ok x.
Proof.
  induction parts as [|k parts IH]; intros d Hn; [by eexists|].
  simpl. destruct parts as [|k2 parts].
  - simpl in Hn. destruct (dict_get k d); [by eexists|by destruct Hn].
  - rewrite get_node_cons in Hn by done.
    destruct (dict_get k d) as [n|]; [|by destruct Hn]. by apply IH.
Qed.

Lemma get_node_ensure (parts : list string) (d : list (string * node)) :
  parts ≠ [] → is_Some (get_node parts (ensure parts d)).
Proof.
  intros Hp. apply (fmap_is_Some payload).
  change (is_Some (payload_at parts (ensure parts d))).
  rewrite payload_ensure. destruct (payload_at parts d); [by eexists|].
  rewrite decide_True by done. by eexists.
Qed.

Lemma step_spec (f : node → node)
    (φ : option row * list row → option row * list row)
    (d : list (string * node)) (path : string) :
  (∀ n, folders (f n) = folders n) →
  (∀ n, payload (f n) = φ (payload n)) →
  ∃ init la d',
    init_last (split_on "/" path) = Some (init, la)
    ∧ (∃ x, descend (split_on "/" path) (ensure (split_on "/" path) d) = Ok x)
    ∧ update_at init la f (ensure (split_on "/" path) d) = Ok d'
    ∧ ∀ q, payload_at q d' = after_step φ (split_on "/" path) q (payload_at q d).
Proof.
  intros Hfold Hpay.
  pose proof (split_on_not_nil "/" path) as Hne.
  destruct (init_last_Some _ Hne) as (init & la & Hp & Hil).
  pose proof (get_node_ensure _ d Hne) as Hnode.
  pose proof (payload_update_at f φ Hfold Hpay init la
                (ensure (split_on "/" path) d)) as Hupd.
  rewrite <- Hp in Hupd. destruct Hnode as [n Hn]. rewrite Hn in Hupd.
  destruct Hupd as (d' & Hd' & Hq).
  exists init, la, d'. split; [done|]. split; [apply descend_ok; by eexists|].
  split; [done|]. intros q. rewrite Hq, payload_ensure. unfold after_step.
  destruct (decide (q = split_on "/" path)); [reflexivity|].
  by rewrite option_fmap_id.
Qed.

Lemma add_folder_spec (d : list (string * node)) (folder : row) path :
  Folder_Path folder = Some path →
  ∃ d', add_folder d folder = Ok d'
        ∧ ∀ q, payload_at q d'
               = after_step (fun x => (Some folder, x.2)) (split_on "/" path) q
                            (payload_at q d).
Proof.
  intros Hpath. unfold add_folder. rewrite Hpath.
  destruct (step_spec (set_info folder) (fun x => (Some folder, x.2)) d path)
    as (init & la & d' & -> & _ & -> & Hq); [done..|].
  by exists d'.
Qed.

Lemma add_file_spec (d : list (string * node)) (file : row) path :
  Folder_Path file = Some path →
  ∃ d', add_file d file = Ok d'
        ∧ ∀ q, payload_at q d'
               = after_step (fun x => (x.1, x.2 ++ [file])) (split_on "/" path) q
                            (payload_at q d).
Proof.
  intros Hpath. unfold add_file. rewrite Hpath.
  destruct (step_spec (append_file file) (fun x => (x.1, x.2 ++ [file])) d path)
    as (init & la & d' & -> & [x ->] & -> & Hq); [done..|].
  by exists d'.
Qed.

Lemma on_path_parts q r p : parts_of r = Some p → on_path q r ↔ q `prefix_of` p.
Proof. intros Hp. unfold on_path. by rewrite Hp. Qed.

Lemma no_row_at q (l : list row) :
  ¬ Exists (on_path q) l → filter (fun r => parts_of r = Some q) l = [].
Proof.
  intros Hno. apply filter_none, Forall_forall. intros r Hr Hq.
  apply Hno, Exists_exists. exists r. split; [done|].
  by apply (on_path_parts q r q).
Qed.

Lemma filter_snoc_parts q (l : list row) f p :
  parts_of f = Some p →
  filter (fun r => parts_of r = Some q) (l ++ [f])
  = filter (fun r => parts_of r = Some q) l ++ (if decide (q = p) then [f] else []).
Proof.
  intros Hp. rewrite filter_app, filter_cons, filter_nil, Hp.
  destruct (decide (q = p)) as [->|Hq].
  - by rewrite decide_True.
  - rewrite decide_False; [reflexivity|]. congruence.
Qed.

Lemma expected_add_folder fr fl f p q :
  parts_of f = Some p →
  after_step (fun x => (Some f, x.2)) p q (expected fr fl q)
  = expected (fr ++ [f]) fl q.
Proof.
  intros Hp. unfold expected, after_step.
  assert (HE : Exists (on_path q) ((fr ++ [f]) ++ fl)
               ↔ Exists (on_path q) (fr ++ fl) ∨ q `prefix_of` p).
  { rewrite !Exists_app, Exists_cons, Exists_nil, (on_path_parts q f p Hp). tauto. }
  rewrite (filter_snoc_parts q fr f p Hp).
  destruct (decide (q ≠ [] ∧ Exists (on_path q) (fr ++ fl))) as [[Hq HC]|HC].
  - rewrite (decide_True (P := _ ∧ Exists _ _)) by (rewrite HE; tauto). simpl.
    destruct (decide (q = p)); simpl.
    + by rewrite last_snoc.
    + by rewrite app_nil_r.
  - destruct (decide (q ≠ [] ∧ q `prefix_of` p)) as [[Hq Hpre]|Hpre].
    + rewrite (decide_True (P := _ ∧ Exists _ _)) by (rewrite HE; tauto). simpl.
      assert (Hno : ¬ Exists (on_path q) (fr ++ fl)) by tauto.
      rewrite Exists_app in Hno.
      rewrite (no_row_at q fr), (no_row_at q fl) by tauto.
      by destruct (decide (q = p)).
    + rewrite (decide_False (P := _ ∧ Exists _ _)) by (rewrite HE; tauto). reflexivity.
Qed.

Lemma expected_add_file fr fl f p q :
  parts_of f = Some p →
  after_step (fun x => (x.1, x.2 ++ [f])) p q (expected fr fl q)
  = expected fr (fl ++ [f]) q.
Proof.
  intros Hp. unfold expected, after_step.
  assert (HE : Exists (on_path q) (fr ++ fl ++ [f])
               ↔ Exists (on_path q) (fr ++ fl) ∨ q `prefix_of` p).
  { rewrite !Exists_app, Exists_cons, Exists_nil, (on_path_parts q f p Hp). tauto. }
  rewrite (filter_snoc_parts q fl f p Hp).
  destruct (decide (q ≠ [] ∧ Exists (on_path q) (fr ++ fl))) as [[Hq HC]|HC].
  - rewrite (decide_True (P := _ ∧ Exists _ _)) by (rewrite HE; tauto). simpl.
    destruct (decide (q = p)); simpl; [reflexivity|].
    by rewrite app_nil_r.
  - destruct (decide (q ≠ [] ∧ q `prefix_of` p)) as [[Hq Hpre]|Hpre].
    + rewrite (decide_True (P := _ ∧ Exists _ _)) by (rewrite HE; tauto). simpl.
      assert (Hno : ¬ Exists (on_path q) (fr ++ fl)) by tauto.
      rewrite Exists_app in Hno.
      rewrite (no_row_at q fr), (no_row_at q fl) by tauto.
      by destruct (decide (q = p)).
    + rewrite (decide_False (P := _ ∧ Exists _ _)) by (rewrite HE; tauto). reflexivity.
Qed.

Lemma add_all_folders (rows : list row) : ∀ (d : list (string * node)) fr fl,
  (∀ q, payload_at q d = expected fr fl q) →
  match add_all add_folder d rows with
  | Ok d' =>
      Forall (fun r => is_Some (Folder_Path r)) rows
      ∧ ∀ q, payload_at q d' = expected (fr ++ rows) fl q
  | Fail e => e = NoSplit ∧ Exists (fun r => Folder_Path r = None) rows
  end.
Proof.
  induction rows as [|r rows IH]; intros d fr fl Hinv; simpl.
  - split; [constructor|]. intros q. by rewrite app_nil_r.
  - destruct (Folder_Path r) as [path|] eqn:Hpath.
    + destruct (add_folder_spec d r path Hpath) as (d' & -> & Hd').
      specialize (IH d' (fr ++ [r]) fl).
      destruct (add_all add_folder d' rows) as [d''|e].
      * destruct IH as [Hall Hq].
        { intros q. rewrite Hd', Hinv. apply expected_add_folder.
          unfold parts_of. by rewrite Hpath. }
        split; [constructor; [by eexists|done]|].
        intros q. by rewrite Hq, <- app_assoc.
      * destruct IH as [-> Hex].
        { intros q. rewrite Hd', Hinv. apply expected_add_folder.
          unfold parts_of. by rewrite Hpath. }
        split; [reflexivity|by right].
    + unfold add_folder. rewrite Hpath. split; [reflexivity|by left].
Qed.

Lemma add_all_files (rows : list row) : ∀ (d : list (string * node)) fr fl,
  (∀ q, payload_at q d = expected fr fl q) →
  match add_all add_file d rows with
  | Ok d' =>
      Forall (fun r => is_Some (Folder_Path r)) rows
      ∧ ∀ q, payload_at q d' = expected fr (fl ++ rows) q
  | Fail e => e = NoSplit ∧ Exists (fun r => Folder_Path r = None) rows
  end.
Proof.
  induction rows as [|r rows IH]; intros d fr fl Hinv; simpl.
  - split; [constructor|]. intros q. by rewrite app_nil_r.
  - destruct (Folder_Path r) as [path|] eqn:Hpath.
    + destruct (add_file_spec d r path Hpath) as (d' & -> & Hd').
      specialize (IH d' fr (fl ++ [r])).
      destruct (add_all add_file d' rows) as [d''|e].
      * destruct IH as [Hall Hq].
        { intros q. rewrite Hd', Hinv. apply expected_add_file.
          unfold parts_of. by rewrite Hpath. }
        split; [constructor; [by eexists|done]|].
        intros q. by rewrite Hq, <- app_assoc.
      * destruct IH as [-> Hex].
        { intros q. rewrite Hd', Hinv. apply expected_add_file.
          unfold parts_of. by rewrite Hpath. }
        split; [reflexivity|by right].
    + unfold add_file. rewrite Hpath. split; [reflexivity|by left].
Qed.

Lemma expected_nothing q : expected [] [] q = None.
Proof.
  unfold expected. rewrite decide_False; [reflexivity|].
  intros [_ H]. by apply Exists_nil in H.
Qed.

Lemma build_spec (df : list row) :
  match build df with
  | Ok tree =>
      Forall (fun r => is_Some (Folder_Path r)) (filter is_folder df)
      ∧ Forall (fun r => is_Some (Folder_Path r)) (filter is_file df)
      ∧ ∀ q, payload_at q tree
             = expected (filter is_folder df) (filter is_file df) q
  | Fail e =>
      e = NoSplit
      ∧ Exists (fun r => Folder_Path r = None)
               (filter is_folder df ++ filter is_file df)
  end.
Proof.
  unfold build.
  pose proof (add_all_folders (filter is_folder df) [] [] []) as Hfolders.
  destruct (add_all add_folder [] (filter is_folder df)) as [d|e].
  - destruct Hfolders as [Hall Hd].
    { intros q. by rewrite payload_at_empty, expected_nothing. }
    pose proof (add_all_files (filter is_file df) d (filter is_folder df) [] Hd)
      as Hfiles.
    destruct (add_all add_file d (filter is_file df)) as [d'|e].
    + destruct Hfiles as [Hall' Hd']. auto.
    + destruct Hfiles as [-> Hex]. split; [reflexivity|].
      apply Exists_app. by right.
  - destruct Hfolders as [-> Hex].
    { intros q. by rewrite payload_at_empty, expected_nothing. }
    split; [reflexivity|]. apply Exists_app. by left.
Qed.

Lemma keys_alter f k (d : list (string * node)) : (dict_alter f k d).*1 = d.*1.
Proof.
  induction d as [|[k0 v] d IH]; [reflexivity|]. cbn [dict_alter].
  destruct (decide (k0 = k)); rewrite !fmap_cons; [reflexivity|].
  by rewrite IH.
Qed.

Lemma dict_get_None k (d : list (string * node)) :
  dict_get k d = None ↔ k ∉ d.*1.
Proof.
  induction d as [|[k0 v] d IH]; simpl.
  - split; [intros _; apply not_elem_of_nil|done].
  - rewrite not_elem_of_cons. destruct (decide (k0 = k)) as [->|Hk].
    + split; [discriminate|]. by intros [? _].
    + rewrite IH. split; [by split|by intros [_ ?]].
Qed.

Lemma dict_get_elem k v (d : list (string * node)) :
  NoDup d.*1 → (k, v) ∈ d → dict_get k d = Some v.
Proof.
  induction d as [|[k0 v0] d IH]; simpl; intros Hnd Hin.
  - by apply elem_of_nil in Hin.
  - apply NoDup_cons in Hnd as [Hk0 Hnd].
    apply elem_of_cons in Hin as [[= -> ->]|Hin].
    + by rewrite decide_True.
    + rewrite decide_False; [by apply IH|].
      intros ->. apply Hk0. apply list_elem_of_fmap. by exists (k, v).
Qed.

Lemma keys_ensure (parts : list string) (d : list (string * node)) :
  NoDup d.*1 → NoDup (ensure parts d).*1.
Proof.
  destruct parts as [|p parts]; [done|]. intros Hnd. cbn [ensure].
  rewrite keys_alter. destruct (dict_get p d) eqn:Ep; [done|].
  rewrite fmap_app. simpl. apply NoDup_app. split; [done|].
  split; [|apply NoDup_singleton].
  intros k Hk ->%list_elem_of_singleton. by apply dict_get_None in Ep.
Qed.

Lemma keys_update_at init la f (d d' : list (string * node)) :
  update_at init la f d = Ok d' → d'.*1 = d.*1.
Proof.
  destruct init as [|part init]; simpl.
  - destruct (dict_get la d); [|discriminate]. intros [= <-]. apply keys_alter.
  - destruct (dict_get part d); [|discriminate].
    destruct (update_at init la f _); [|discriminate].
    intros [= <-]. apply keys_alter.
Qed.

Lemma keys_add_folder (d d' : list (string * node)) r :
  NoDup d.*1 → add_folder d r = Ok d' → NoDup d'.*1.
Proof.
  unfold add_folder. intros Hnd.
  destruct (Folder_Path r) as [path|]; [|discriminate].
  destruct (init_last _) as [[init la]|]; [|discriminate].
  intros ->%keys_update_at. by apply keys_ensure.
Qed.

Lemma keys_add_file (d d' : list (string * node)) r :
  NoDup d.*1 → add_file d r = Ok d' → NoDup d'.*1.
Proof.
  unfold add_file. intros Hnd.
  destruct (Folder_Path r) as [path|]; [|discriminate].
  destruct (descend _ _); [|discriminate].
  destruct (init_last _) as [[init la]|].
  - intros ->%keys_update_at. by apply keys_ensure.
  - intros [= <-]. by apply keys_ensure.
Qed.

Lemma keys_add_all add (rows : list row) :
  (∀ d d' r, NoDup d.*1 → add d r = Ok d' → NoDup d'.*1) →
  ∀ (d d' : list (string * node)),
    NoDup d.*1 → add_all add d rows = Ok d' → NoDup d'.*1.
Proof.
  intros Hadd. induction rows as [|r rows IH]; intros d d' Hnd; simpl.
  - by intros [= <-].
  - destruct (add d r) as [d1|] eqn:E; [|discriminate].
    apply IH. by eapply Hadd.
Qed.

(** The keys of the root level are all different. *)
Lemma keys_build (df : list row) tree : build df = Ok tree → NoDup tree.*1.
Proof.
  unfold build.
  destruct (add_all add_folder [] _) as [d|] eqn:E; [|discriminate].
  apply (keys_add_all add_file (filter is_file df) keys_add_file).
  apply (keys_add_all add_folder (filter is_folder df) keys_add_folder [] d);
    [constructor|done].
Qed.

Lemma display_roots_nil expanded (d : list (string * node)) :
  Forall (fun entry => info entry.2 = None) d → display_roots expanded d = [].
Proof.
  induction 1 as [|[k v] d Hv _ IH]; simpl; [reflexivity|].
  simpl in Hv. by rewrite Hv, IH.
Qed.

Lemma Forall_file_or_folder (P : row → Prop) (df : list row) :
  Forall P (filter is_folder df) ∧ Forall P (filter is_file df)
  ↔ Forall (fun r => is_file r ∨ is_folder r → P r) df.
Proof.
  rewrite !Forall_forall. split.
  - intros [H1 H2] r Hr [Hf|Hf]; [apply H2|apply H1]; by apply list_elem_of_filter.
  - intros H. split; intros r [? ?]%list_elem_of_filter; auto.
Qed.
End TreeFacts.

(** The info of a root entry is the last Folder record whose path is its
    key. *)
Lemma root_info (df : list row) tree k v :
  Tree.build df = Tree.Ok tree →
  Tree.dict_get k tree = Some v →
  Tree.info v
  = last (filter (fun r => Tree.parts_of r = Some [k]) (filter is_folder df)).
Proof.
  intros E Hget. pose proof (build_spec df) as H. rewrite E in H.
  destruct H as (_ & _ & H). specialize (H [k]).
  unfold Tree.payload_at, Tree.expected in H. simpl Tree.get_node in H.
  rewrite Hget in H. simpl in H.
  case_decide; [|discriminate]. by injection H as -> _.
Qed.

(** X12. Building the folder tree never fails on a missing key or index: it
    fails only on a File or Folder record without a [Folder Path], and it
    does fail on every table that has one. *)
Theorem tree_fails_only_without_path (df : list row) :
  match Tree.build df with
  | Tree.Ok _ =>
      Forall (fun r => is_file r ∨ is_folder r → is_Some (Folder_Path r)) df
  | Tree.Fail e =>
      e = Tree.NoSplit
      ∧ Exists (fun r => (is_file r ∨ is_folder r) ∧ Folder_Path r = None) df
  end.
Proof.
  pose proof (build_spec df) as H. destruct (Tree.build df) as [tree|e].
  - destruct H as (H1 & H2 & _). by apply Forall_file_or_folder.
  - destruct H as [-> H]. split; [reflexivity|].
    apply Exists_app in H. apply Exists_exists.
    destruct H as [H|H]; apply Exists_exists in H as (r & Hr & Hnone);
      apply list_elem_of_filter in Hr as [Ht Hr]; exists r; tauto.
Qed.

(** X13. What the built tree holds. There is a node at a path of segments
    exactly when the path is a non-empty beginning of the folder path of some
    File or Folder record; its info is the last Folder record with exactly
    that path (none if there is no such record), and its files are the File
    records with exactly that path, in the order of the table. *)
Theorem tree_contents (df : list row) tree :
  Tree.build df = Tree.Ok tree →
  ∀ q,
    (is_Some (Tree.get_node q tree) ↔
       q ≠ [] ∧ ∃ r, r ∈ df ∧ (is_file r ∨ is_folder r) ∧ Tree.on_path q r)
    ∧ ∀ n, Tree.get_node q tree = Some n →
           Tree.info n
             = last (filter (fun r => Tree.parts_of r = Some q) (filter is_folder df))
           ∧ Tree.files n
             = filter (fun r => Tree.parts_of r = Some q) (filter is_file df).
Proof.
  intros E q. pose proof (build_spec df) as H. rewrite E in H.
  destruct H as (_ & _ & H). specialize (H q).
  unfold Tree.payload_at, Tree.expected in H.
  assert (HE : Exists (Tree.on_path q) (filter is_folder df ++ filter is_file df)
               ↔ ∃ r, r ∈ df ∧ (is_file r ∨ is_folder r) ∧ Tree.on_path q r).
  { rewrite Exists_exists. split.
    - intros (r & Hr & Hon). exists r.
      apply elem_of_app in Hr as [Hr|Hr];
        apply list_elem_of_filter in Hr as [Ht Hr]; tauto.
    - intros (r & Hr & Ht & Hon). exists r. split; [|done].
      apply elem_of_app. destruct Ht; [right|left]; by apply list_elem_of_filter. }
  destruct (Tree.get_node q tree) as [n|]; simpl in H.
  - case_decide as HC; [|discriminate]. injection H as Hi Hf. split.
    + split; [intros _|by eexists]. rewrite <- HE. exact HC.
    + intros n' [= <-]. done.
  - case_decide as HC; [discriminate|]. split.
    + split; [by intros [? ?]|]. rewrite <- HE. intros ?. done.
    + intros n' [=].
Qed.

(** X14. When every Folder record has a separator in its folder path, no root of
    the tree is a listed folder, and the tree tab shows nothing at all,
    whatever the File records are and whichever boxes are ticked. *)
Theorem tree_hidden_without_listed_root expanded (df : list row) lines :
  Forall (fun r => is_folder r →
            ∀ path, Folder_Path r = Some path → 0 < count_char "/" path) df →
  Tree.create_folder_tree_view expanded (Some df) = Tree.Ok lines →
  lines = [].
Proof.
  intros Hdeep. unfold Tree.create_folder_tree_view.
  case_decide; [by intros [= <-]|].
  destruct (Tree.build df) as [tree|] eqn:E; [|discriminate].
  intros [= <-]. apply display_roots_nil, Forall_forall. intros [k v] Hin.
  simpl. pose proof (keys_build df tree E) as Hnd.
  pose proof (dict_get_elem k v tree Hnd Hin) as Hget.
  rewrite (root_info df tree k v E Hget).
  rewrite filter_none; [reflexivity|].
  apply Forall_forall. intros r [Hfolder Hr]%list_elem_of_filter.
  unfold Tree.parts_of. destruct (Folder_Path r) as [path|] eqn:Hpath; [|done].
  simpl. intros [= Hsplit].
  pose proof (proj1 (Forall_forall _ _) Hdeep r Hr Hfolder path Hpath) as Hcount.
  pose proof (split_on_length "/" path) as Hlen.
  rewrite Hsplit in Hlen. simpl in Hlen. lia.
Qed.

Lemma tree_contents_witness :
  is_Some (Tree.get_node ["Drive"; "Reports"] deep_tree)
  ↔ ["Drive"; "Reports"] ≠ []
    ∧ ∃ r, r ∈ deep_rows ∧ (is_file r ∨ is_folder r)
           ∧ Tree.on_path ["Drive"; "Reports"] r.
Proof.
  refine (proj1 (tree_contents deep_rows deep_tree _ ["Drive"; "Reports"])).
  vm_compute. reflexivity.
Defined.

Lemma tree_hidden_without_listed_root_witness :
  Tree.create_folder_tree_view (fun _ _ => true) (Some deep_rows) = Tree.Ok []
  ∧ ([] : list Tree.line) = [].
Proof.
  assert (E : Tree.create_folder_tree_view (fun _ _ => true) (Some deep_rows)
              = Tree.Ok []) by (vm_compute; reflexivity).
  split; [exact E|].
  refine (tree_hidden_without_listed_root (fun _ _ => true) deep_rows [] _ E).
  repeat constructor; intros _ path [= <-]; vm_compute; lia.
Defined.

(** X15. A record sits in the tree at the depth of its [Folder Level] plus one:
    the segments of its folder path are one more than its separators. *)
Theorem tree_depth_is_folder_level to_datetime now df out i r :
  load_data to_datetime now (Some df) = Returned (Some out) →
  out !! i = Some r →
  length <$> Tree.parts_of r = S <$> Folder_Level r.
Proof.
  intros E Hi. destruct (load_data_inv _ _ _ _ E _ _ Hi) as (raw & _ & ->).
  unfold Tree.parts_of. simpl.
  destruct (raw_Folder_Path raw) as [path|]; simpl; [|reflexivity].
  by rewrite findall_slash, split_on_length.
Qed.

Lemma tree_depth_is_folder_level_witness :
  length <$> Tree.parts_of (enrich 0%Z sample_raw (Some 0%Z))
  = S <$> Folder_Level (enrich 0%Z sample_raw (Some 0%Z)).
Proof.
  refine (tree_depth_is_folder_level to_datetime_known 0%Z [sample_raw]
            [enrich 0%Z sample_raw (Some 0%Z)] 0 _ _ _); reflexivity.
Defined.



(** X10. The suggestions fail exactly when the [Name] cell of some File
    record holds no text: the cell is empty, or it holds a number, which is
    what the CSV reader makes of a column of names written in digits only.
    They fail with the AttributeError of calling [lower] on such a value;
    otherwise they return. A Folder record without a text as its name never
    makes them fail. *)
Theorem suggestions_fail_only_without_name {U : Unicode}
    set_to_list (df : list row) :
  match ai_archive_suggestions set_to_list df with
  | Returned _ => Forall (fun r => is_file r → is_Some (Name r)) df
  | Raised e =>
      e = AttributeError ∧ Exists (fun r => is_file r ∧ Name r = None) df
  end.
Proof.
  destruct (decide (Exists (fun r => is_file r ∧ Name r = None) df)) as [Hex|Hno].
  - apply Exists_exists in Hex as Hr. destruct Hr as (r & Hr & Hf & Hn).
    rewrite engine_groups, scan_rows_raises; [by split|].
    rewrite <- Hn. apply list_elem_of_fmap_2. by apply list_elem_of_filter.
  - assert (Hall : Forall (fun r => is_file r → is_Some (Name r)) df).
    { apply Forall_forall. intros r Hr Hf.
      destruct (Name r) as [name|] eqn:Hn; [by eexists|].
      exfalso. apply Hno, Exists_exists. by exists r. }
    destruct (file_names df Hall) as (names & Hnames).
    destruct (scan_rows_candidates names _ (Scan ∅ []) [] Hnames tracks_nil)
      as (st & Hscan & _).
    by rewrite engine_groups, Hscan.
Qed.

(** ** The pipeline where it returns *)


